(** * The in-memory customer datastore (package [datastore])

    A shallow embedding of [src/datastore/datastore.go]: the dense slice of
    customers, the id -> position map, the set of processed event ids, the
    ingestion loop of [New] and the CRUD methods, followed by the properties
    of the specification that concern them.

    Conventions of the embedding.
    - Go's [int] is taken at 64 bits and written as [Z]; the only arithmetic
      that can leave the range is the event counter's [++], whose wrap-around
      is written out ([wrap_int]).  Timestamps are the record's integer
      seconds; [int(record.Timestamp)] is the identity on a 64-bit platform.
    - Go maps are [gmap]s.  A [for k, v := range m { dst[k] = v }] loop is a
      [map_fold] of insertions.
    - [ds.customers] is a slice of pointers.  Every operation of the file
      keeps the pointers in the visible part of the slice pairwise distinct
      (append adds a fresh one, Delete moves the last one over the deleted
      one and truncates), so a mutation through [ds.customers[pos]] is the
      replacement of the element at [pos]: the slice is a [list] of customer
      values, and a write through the pointer is [store_customer].
    - An index expression out of range is a run-time panic: [Panic].
    - A Go result pair [(v, err)] is a [res]: [ok v] or [err e].
    - [time.Now().Unix()] is an extra argument [now] of the two methods that
      read the clock.
    - The [ds == nil] guards of the helpers are dead: every caller in the
      file passes [&store] or a receiver it has already dereferenced. *)

From stdpp Require Import gmap strings list fin_maps.
From Stdlib Require Import ZArith Ascii String.
From Equations Require Import Equations.

Local Open Scope string_scope.
Local Open Scope Z_scope.
Local Open Scope list_scope.

(** ** Errors, results, panics *)

Inductive error : Type :=
  | ErrSyntax (s : string)      (* strconv.Atoi: invalid syntax *)
  | ErrRange (s : string)       (* strconv.Atoi: value out of range *)
  | ErrCustomerNotFound         (* "customer not found" *)
  | ErrCustomerAlreadyExists    (* "customer already exists" *)
  | ErrCustomerDoesNotExist.    (* "customer does not exist" *)

Inductive res (A : Type) : Type :=
  | ok (a : A)
  | err (e : error).
Arguments ok {A} a.
Arguments err {A} e.

Inductive exec (A : Type) : Type :=
  | Done (a : A)
  | Panic.
Arguments Done {A} a.
Arguments Panic {A}.

Definition exec_bind {A B : Type} (m : exec A) (k : A -> exec B) : exec B :=
  match m with
  | Done a => k a
  | Panic => Panic
  end.

Notation "x <~ m ;; k" := (exec_bind m (fun x => k))
  (at level 100, m at next level, right associativity).

(** ** Slices indexed by a Go [int] *)

Definition len {A : Type} (l : list A) : Z := Z.of_nat (List.length l).

(** [l[i]] as an rvalue. *)
Definition index {A : Type} (l : list A) (i : Z) : exec A :=
  if decide (0 <= i)
  then match l !! Z.to_nat i with Some x => Done x | None => Panic end
  else Panic.

(** [l[i] = x]. *)
Definition set_index {A : Type} (l : list A) (i : Z) (x : A) : exec (list A) :=
  if decide (0 <= i < len l) then Done (<[Z.to_nat i := x]> l) else Panic.

(** ** 64-bit wrap-around *)

Definition wrap_int (z : Z) : Z := (z + 2 ^ 63) mod 2 ^ 64 - 2 ^ 63.

(** ** [strconv.Atoi]: an optional sign, then one or more decimal digits,
    the value within the range of [int]

    The digits are scanned from the left, as [strconv.ParseUint] scans
    them: a character that is not a decimal digit is a syntax error, a value
    that leaves the range of [uint64] is a range error, whichever comes
    first; the sign and the range of [int] are checked on the scanned
    value, as [strconv.ParseInt] checks them. *)

Definition digit (a : ascii) : option Z :=
  let n := Z.of_N (N_of_ascii a) in
  if (48 <=? n) && (n <=? 57) then Some (n - 48) else None.

Inductive scan : Type :=
  | Scanned (n : Z)
  | BadSyntax
  | OutOfRange.

Fixpoint parse_digits (acc : Z) (s : string) : scan :=
  match s with
  | EmptyString => Scanned acc
  | String a s' =>
      match digit a with
      | None => BadSyntax
      | Some d =>
          if acc * 10 + d <=? 2 ^ 64 - 1 then parse_digits (acc * 10 + d) s'
          else OutOfRange
      end
  end.

Definition Atoi (s : string) : res Z :=
  let '(neg, body) :=
    match s with
    | String "-"%char s' => (true, s')
    | String "+"%char s' => (false, s')
    | _ => (false, s)
    end in
  match body with
  | EmptyString => err (ErrSyntax s)
  | _ =>
      match parse_digits 0 body with
      | BadSyntax => err (ErrSyntax s)
      | OutOfRange => err (ErrRange s)
      | Scanned n =>
          let v := if neg then - n else n in
          if (- 2 ^ 63 <=? v) && (v <=? 2 ^ 63 - 1) then ok v
          else err (ErrRange s)
      end
  end.

(** ** The data model *)

Module serve.
(** Modelled from the spec: the declaration of [serve.Customer] (package
    [serve] is not among the sources).  The fields are those of the
    Customer of the specification's data model, with the names and types of
    the composite literals that [registerCustomer] and
    [registerCustomerFromRecord] build. *)
Record Customer : Type := mkCustomer {
  ID : Z;
  Attributes : gmap string string;
  Events : gmap string Z;
  LastUpdated : Z
}.
End serve.

Module stream.
(** Modelled from the spec: the declaration of [stream.Record] (package
    [stream] is not among the sources).  The fields are those of the Record
    of the specification's data model, with the names under which
    [processRecord] reads them; [Type_] is the field [Type], and the kind is
    the string that the [switch] compares with "event" and "attributes". *)
Record Record_ : Type := mkRecord {
  ID : string;
  Type_ : string;
  Name : string;
  UserID : string;
  Data : gmap string string;
  Timestamp : Z
}.
End stream.

Record Datastore : Type := mkDatastore {
  customers : list serve.Customer;
  (* link the customer id to the position in the 'customers' slice *)
  customerLinks : gmap Z Z;
  (* map to keep track of processed events *)
  processedEventsMap : gmap string bool
}.

Definition set_customers (cs : list serve.Customer) (ds : Datastore) : Datastore :=
  {| customers := cs;
     customerLinks := customerLinks ds;
     processedEventsMap := processedEventsMap ds |}.

Definition set_customerLinks (m : gmap Z Z) (ds : Datastore) : Datastore :=
  {| customers := customers ds;
     customerLinks := m;
     processedEventsMap := processedEventsMap ds |}.

Definition set_processedEventsMap (m : gmap string bool) (ds : Datastore) : Datastore :=
  {| customers := customers ds;
     customerLinks := customerLinks ds;
     processedEventsMap := m |}.

(** A write through the pointer held at [ds.customers[pos]]. *)
Definition store_customer (pos : Z) (c : serve.Customer) (ds : Datastore) : Datastore :=
  set_customers (<[Z.to_nat pos := c]> (customers ds)) ds.

(** [for k, v := range src { dst[k] = v }] *)
Definition range_assign (src dst : gmap string string) : gmap string string :=
  map_fold (fun k v acc => <[k := v]> acc) dst src.

Definition empty_store : Datastore :=
  {| customers := []; customerLinks := ∅; processedEventsMap := ∅ |}.

(** ** The helpers of the ingestion loop *)

Definition isUserRegistered (ds : Datastore) (customerId : string) : res bool :=
  match Atoi customerId with
  | err e => err e
  | ok userId =>
      match customerLinks ds !! userId with
      | None => ok false
      | Some _ => ok true
      end
  end.

Definition registerCustomerFromRecord (record : stream.Record_) (ds : Datastore)
  : res serve.Customer * Datastore :=
  match Atoi (stream.UserID record) with
  | err e => (err e, ds)
  | ok userId =>
      let newCustomer :=
        {| serve.ID := userId;
           serve.Attributes := ∅;
           serve.Events := ∅;
           serve.LastUpdated := stream.Timestamp record |} in
      let cs := customers ds ++ [newCustomer] in
      (ok newCustomer,
       set_customerLinks (<[userId := len cs - 1]> (customerLinks ds))
         (set_customers cs ds))
  end.

Definition registerCustomer (id : Z) (attributes : gmap string string) (now : Z)
    (ds : Datastore) : res serve.Customer * Datastore :=
  let newCustomer :=
    {| serve.ID := id;
       serve.Attributes := range_assign attributes ∅;
       serve.Events := ∅;
       serve.LastUpdated := now |} in
  let cs := customers ds ++ [newCustomer] in
  (ok newCustomer,
   set_customerLinks (<[id := len cs - 1]> (customerLinks ds))
     (set_customers cs ds)).

(** The tail of [processRecord]: raise the watermark, and leave the customer
    as mutated in its slot. *)
Definition raise_LastUpdated (ts : Z) (c : serve.Customer) : serve.Customer :=
  if decide (serve.LastUpdated c < ts)
  then {| serve.ID := serve.ID c;
          serve.Attributes := serve.Attributes c;
          serve.Events := serve.Events c;
          serve.LastUpdated := ts |}
  else c.

Definition count_event (name : string) (c : serve.Customer) : serve.Customer :=
  {| serve.ID := serve.ID c;
     serve.Attributes := serve.Attributes c;
     serve.Events :=
       match serve.Events c !! name with
       | None => <[name := 1]> (serve.Events c)
       | Some n => <[name := wrap_int (n + 1)]> (serve.Events c)
       end;
     serve.LastUpdated := serve.LastUpdated c |}.

Definition set_attributes (data : gmap string string) (c : serve.Customer)
  : serve.Customer :=
  {| serve.ID := serve.ID c;
     serve.Attributes := range_assign data (serve.Attributes c);
     serve.Events := serve.Events c;
     serve.LastUpdated := serve.LastUpdated c |}.

(** [processRecord] returns its [error] ([None] is [nil]) and the datastore. *)
Definition processRecord (record : stream.Record_) (ds : Datastore)
  : exec (option error * Datastore) :=
  match Atoi (stream.UserID record) with
  | err e => Done (Some e, ds)
  | ok customerId =>
      let pos := default 0 (customerLinks ds !! customerId) in
      customer <~ index (customers ds) pos ;;
      if decide (stream.Type_ record = "event") then
        match processedEventsMap ds !! stream.ID record with
        | Some _ => Done (None, ds)     (* skip processing if already processed *)
        | None =>
            let customer := count_event (stream.Name record) customer in
            let ds := set_processedEventsMap
                        (<[stream.ID record := true]> (processedEventsMap ds)) ds in
            Done (None,
                  store_customer pos
                    (raise_LastUpdated (stream.Timestamp record) customer) ds)
        end
      else if decide (stream.Type_ record = "attributes") then
        let customer :=
          if decide (stream.Timestamp record >= serve.LastUpdated customer)
          then set_attributes (stream.Data record) customer
          else customer in
        Done (None,
              store_customer pos
                (raise_LastUpdated (stream.Timestamp record) customer) ds)
      else
        Done (None,
              store_customer pos
                (raise_LastUpdated (stream.Timestamp record) customer) ds)
  end.

(** ** The ingestion loop of [New] *)

(** What one iteration of [for record := range inputChannel] does to the
    control flow: go on with the next record, or [return nil, err]. *)
Inductive loop_ctl : Type :=
  | Next (store : Datastore)
  | Return (e : error).

Definition New_body (record : stream.Record_) (store : Datastore) : exec loop_ctl :=
  match isUserRegistered store (stream.UserID record) with
  | err _ => Done (Next store)                    (* continue *)
  | ok exists_ =>
      let store :=
        if exists_ then store
        else snd (registerCustomerFromRecord record store) in
      r <~ processRecord record store ;;
      match r with
      | (Some e, _) => Done (Return e)
      | (None, store) => Done (Next store)
      end
  end.

(** The records the channel delivers until it is closed, as a list. *)
Fixpoint New_loop (inputChannel : list stream.Record_) (store : Datastore)
  : exec (res Datastore) :=
  match inputChannel with
  | [] => Done (ok store)
  | record :: rest =>
      c <~ New_body record store ;;
      match c with
      | Return e => Done (err e)
      | Next store => New_loop rest store
      end
  end.

Definition New (inputChannel : list stream.Record_) : exec (res Datastore) :=
  New_loop inputChannel empty_store.

(** ** Index repair *)

(** [for i, j := 0, len-1; i < j; i, j = i+1, j-1 { links[cs[i].ID], links[cs[j].ID] = i, j }] *)
Equations? fixLinks_loop (cs : list serve.Customer) (i j : Z) (links : gmap Z Z)
  : exec (gmap Z Z) by wf (Z.to_nat (j - i)) lt :=
  fixLinks_loop cs i j links with decide (i < j) => {
    | left _ with index cs i, index cs j => {
        | Done ci, Done cj =>
            fixLinks_loop cs (i + 1) (j - 1)
              (<[serve.ID cj := j]> (<[serve.ID ci := i]> links));
        | _, _ => Panic };
    | right _ => Done links }.
Proof. lia. Qed.

Definition fixLinks (ds : Datastore) : exec (option error * Datastore) :=
  links <~ fixLinks_loop (customers ds) 0 (len (customers ds) - 1) (customerLinks ds) ;;
  Done (None, set_customerLinks links ds).

(** ** The CRUD methods *)

(** Get retrieves a customer's data by ID *)
Definition Get (id : Z) (ds : Datastore) : exec (res serve.Customer * Datastore) :=
  match customerLinks ds !! id with
  | None => Done (err ErrCustomerNotFound, ds)
  | Some pos =>
      customer <~ index (customers ds) pos ;;
      Done (ok customer, ds)
  end.

(** List retrieves all customers in the datastore *)
Definition List (page count : Z) (ds : Datastore)
  : exec (res (list serve.Customer) * Datastore) :=
  Done (ok (customers ds), ds).

(** Create adds a new customer to the datastore *)
Definition Create (id : Z) (attributes : gmap string string) (now : Z) (ds : Datastore)
  : exec (res serve.Customer * Datastore) :=
  match customerLinks ds !! id with
  | Some _ => Done (err ErrCustomerAlreadyExists, ds)
  | None => Done (registerCustomer id attributes now ds)
  end.

Definition update_customer (attributes : gmap string string) (now : Z)
    (c : serve.Customer) : serve.Customer :=
  {| serve.ID := serve.ID c;
     serve.Attributes := range_assign attributes (serve.Attributes c);
     serve.Events := serve.Events c;
     serve.LastUpdated := now |}.

(** Update updates a customer's attribute data *)
Definition Update (id : Z) (attributes : gmap string string) (now : Z) (ds : Datastore)
  : exec (res serve.Customer * Datastore) :=
  match customerLinks ds !! id with
  | None => Done (err ErrCustomerDoesNotExist, ds)
  | Some pos =>
      customer <~ index (customers ds) pos ;;
      let customer := update_customer attributes now customer in
      Done (ok customer, store_customer pos customer ds)
  end.

(** Delete removes a customer from the datastore *)
Definition Delete (id : Z) (ds : Datastore) : exec (option error * Datastore) :=
  match customerLinks ds !! id with
  | None => Done (Some ErrCustomerNotFound, ds)
  | Some pos =>
      (* delete link *)
      let ds := set_customerLinks (delete id (customerLinks ds)) ds in
      (* delete customer *)
      last <~ index (customers ds) (len (customers ds) - 1) ;;
      cs <~ set_index (customers ds) pos last ;;
      let ds := set_customers (take (Z.to_nat (len cs - 1)) cs) ds in
      (* recalculate links *)
      fixLinks ds
  end.

(** TotalCustomers returns the total number of customers in the datastore *)
Definition TotalCustomers (ds : Datastore) : exec (res Z * Datastore) :=
  Done (ok (len (customers ds)), ds).

(** ** Histories of a registry

    The operations that change a registry: one more record of the ingestion
    pass, or a mutating call of the serving layer.  A call that returns an
    error leaves the registry to the next operation as the method left it.
    (An iteration of the loop of [New] that returned an error would end the
    pass; [run_op] gives it the registry it started from, and
    [New_body_no_Return] shows that no record and no registry produce one.) *)
Inductive op : Type :=
  | Ingest (record : stream.Record_)
  | DoCreate (id : Z) (attributes : gmap string string) (now : Z)
  | DoUpdate (id : Z) (attributes : gmap string string) (now : Z)
  | DoDelete (id : Z).

Definition run_op (o : op) (ds : Datastore) : exec Datastore :=
  match o with
  | Ingest record =>
      c <~ New_body record ds ;;
      match c with Next ds => Done ds | Return _ => Done ds end
  | DoCreate id attributes now => r <~ Create id attributes now ds ;; Done (snd r)
  | DoUpdate id attributes now => r <~ Update id attributes now ds ;; Done (snd r)
  | DoDelete id => r <~ Delete id ds ;; Done (snd r)
  end.

Fixpoint run_ops (os : list op) (ds : Datastore) : exec Datastore :=
  match os with
  | [] => Done ds
  | o :: os => ds <~ run_op o ds ;; run_ops os ds
  end.

Definition is_create_or_delete (o : op) : bool :=
  match o with
  | DoCreate _ _ _ | DoDelete _ => true
  | _ => false
  end.

(** ** Concrete registries and records used below *)

Definition ev0 : stream.Record_ := stream.mkRecord "e1" "event" "open" "1" ∅ 1.
Definition ev1 : stream.Record_ := stream.mkRecord "e1" "event" "open" "1" ∅ 10.
Definition ev1_user2 : stream.Record_ := stream.mkRecord "e1" "event" "open" "2" ∅ 12.
Definition at1 : stream.Record_ :=
  stream.mkRecord "" "attributes" "" "1" {["color" := "red"]} 5.
Definition at2 : stream.Record_ :=
  stream.mkRecord "" "attributes" "" "1" {["color" := "blue"]} 20.

(** Customer 1 alone, nothing ingested for it yet. *)
Definition s_one : Datastore :=
  {| customers := [serve.mkCustomer 1 ∅ ∅ 0];
     customerLinks := {[1 := 0]};
     processedEventsMap := ∅ |}.

(** The registry after the event "e1" of user 1 at timestamp 1. *)
Definition s_dup : Datastore :=
  {| customers := [serve.mkCustomer 1 ∅ {["open" := 1]} 1];
     customerLinks := {[1 := 0]};
     processedEventsMap := {["e1" := true]} |}.

(** Customer 1 as a record dated 2100-01-01 leaves it. *)
Definition at_future : stream.Record_ :=
  stream.mkRecord "" "attributes" "" "1" ∅ 4102444800.

Definition s_future : Datastore :=
  {| customers := [serve.mkCustomer 1 ∅ ∅ 4102444800];
     customerLinks := {[1 := 0]};
     processedEventsMap := ∅ |}.

Definition bad_user : stream.Record_ :=
  stream.mkRecord "e9" "event" "open" "12a" ∅ 30.

(** [Create(1)], [Create(2)], [Delete(1)], and the registry they leave. *)
Definition create_create_delete : list op :=
  [DoCreate 1 ∅ 100; DoCreate 2 ∅ 200; DoDelete 1].

Definition s_stale : Datastore :=
  {| customers := [serve.mkCustomer 2 ∅ ∅ 200];
     customerLinks := {[2 := 1]};
     processedEventsMap := ∅ |}.

(** [Create(1)], [Create(2)], [Delete(1)], [Create(3)], [Delete(2)], and the
    registry they leave: customer 2 stored without an index entry, and an
    index entry for 3 without a customer. *)
Definition create_delete_create_delete : list op :=
  [DoCreate 1 ∅ 100; DoCreate 2 ∅ 200; DoDelete 1; DoCreate 3 ∅ 300; DoDelete 2].

Definition s_lost : Datastore :=
  {| customers := [serve.mkCustomer 2 ∅ ∅ 200];
     customerLinks := {[3 := 1]};
     processedEventsMap := ∅ |}.

(** Four customers, [Delete(2)], then [Create(5)]. *)
Definition four_delete_create : list op :=
  [DoCreate 1 ∅ 100; DoCreate 2 ∅ 200; DoCreate 3 ∅ 300; DoCreate 4 ∅ 400;
   DoDelete 2; DoCreate 5 ∅ 500].

(** ** The claims of the specification that the code does not meet, as
    they are stated *)

(** Watermark asymmetry, for any event record. *)
Definition watermark_asymmetry_at
    (s : Datastore) (e a : stream.Record_) (id pos : Z) (c : serve.Customer) : Prop :=
  customerLinks s !! id = Some pos ->
  index (customers s) pos = Done c ->
  stream.Type_ e = "event" ->
  Atoi (stream.UserID e) = ok id ->
  stream.Type_ a = "attributes" ->
  Atoi (stream.UserID a) = ok id ->
  serve.LastUpdated c < stream.Timestamp a < stream.Timestamp e ->
  exists s1 c1,
    New_loop [e] s = Done (ok s1)
    /\ Get id s1 = Done (ok c1, s1)
    /\ serve.LastUpdated c1 = stream.Timestamp e
    /\ exists s2 c2,
         New_loop [a] s1 = Done (ok s2)
         /\ Get id s2 = Done (ok c2, s2)
         /\ serve.Attributes c2 = serve.Attributes c1.

Definition is_ingest_or_update (o : op) : bool :=
  match o with
  | Ingest _ | DoUpdate _ _ _ => true
  | _ => false
  end.

(** Watermark monotonicity (I4) across one operation [o], for every stored
    customer. *)
Definition lastUpdated_monotone_at (o : op) (s : Datastore) : Prop :=
  forall s' (i : nat) c,
    run_op o s = Done s' ->
    customers s !! i = Some c ->
    exists c', customers s' !! i = Some c'
      /\ serve.ID c' = serve.ID c
      /\ serve.LastUpdated c <= serve.LastUpdated c'.

(** ** Invariants of the registry *)

(** No entry of the index points outside the slice. *)
Definition links_in_bounds (ds : Datastore) : Prop :=
  forall id pos, customerLinks ds !! id = Some pos -> 0 <= pos < len (customers ds).

(** I1, exactness: the index sends the id of every stored customer to the
    position the customer is stored at. *)
Definition index_exact (ds : Datastore) : Prop :=
  forall (i : nat) c,
    customers ds !! i = Some c ->
    customerLinks ds !! serve.ID c = Some (Z.of_nat i).

(** I1, inverse: every entry of the index is the position of a stored
    customer with that id. *)
Definition index_sound (ds : Datastore) : Prop :=
  forall id pos,
    customerLinks ds !! id = Some pos ->
    exists c, index (customers ds) pos = Done c /\ serve.ID c = id.

Definition I1 (ds : Datastore) : Prop := index_exact ds /\ index_sound ds.

(** The ids of the stored customers are pairwise distinct (I2). *)
Definition unique_ids (cs : list serve.Customer) : Prop :=
  forall (i j : nat) c c',
    cs !! i = Some c -> cs !! j = Some c' -> serve.ID c = serve.ID c' -> i = j.

(** The positions that the two cursors of [fixLinks], started at [i] and
    [j], write: all of [i..j] but the middle one, when there is one. *)
Definition visited (i j : Z) (k : nat) : Prop :=
  i <= Z.of_nat k <= j /\ 2 * Z.of_nat k <> i + j.

(** ** Further definitions for the properties of ingestion and histories *)

Definition is_delete (o : op) : bool :=
  match o with
  | DoDelete _ => true
  | _ => false
  end.

(** Customers 1 and 2, as two [Create]s on the empty registry leave them. *)
Definition s_two : Datastore :=
  {| customers := [serve.mkCustomer 1 ∅ ∅ 100; serve.mkCustomer 2 ∅ ∅ 200];
     customerLinks := {[1 := 0; 2 := 1]};
     processedEventsMap := ∅ |}.

(** The user id of a record, when [strconv.Atoi] accepts it. *)
Definition user_of (r : stream.Record_) : option Z :=
  match Atoi (stream.UserID r) with
  | ok id => Some id
  | err _ => None
  end.

(** The ids of [ids] that are not in [seen], each once, in the order of
    their first occurrence. *)
Fixpoint first_seen (seen ids : list Z) : list Z :=
  match ids with
  | [] => []
  | id :: ids =>
      if decide (id ∈ seen) then first_seen seen ids
      else id :: first_seen (seen ++ [id]) ids
  end.

Definition at1_green : stream.Record_ :=
  stream.mkRecord "" "attributes" "" "1" {["color" := "green"]} 5.

(** An event of user 1 older than the watermark of [s_dup]. *)
Definition ev_old : stream.Record_ := stream.mkRecord "e0" "event" "open" "1" ∅ 0.

(** The event records that are counted, as (user id, event name) pairs in
    the order of the input: the records of kind "event" whose user id
    parses and whose record id is neither in [seen] nor the record id of an
    earlier such record. *)
Fixpoint counted (seen : gmap string bool) (rs : list stream.Record_)
  : list (Z * string) :=
  match rs with
  | [] => []
  | r :: rs =>
      match user_of r with
      | Some id =>
          if decide (stream.Type_ r = "event" /\ seen !! stream.ID r = None)
          then (id, stream.Name r) :: counted (<[stream.ID r := true]> seen) rs
          else counted seen rs
      | None => counted seen rs
      end
  end.

Definition occurrences (x : Z * string) (l : list (Z * string)) : Z :=
  Z.of_nat (List.length (filter (fun y => y = x) l)).

(** The count of [name] held by the customer in slot [i], if there is one. *)
Definition slot_events (s : Datastore) (i : nat) (name : string) : option Z :=
  match customers s !! i with
  | Some c => serve.Events c !! name
  | None => None
  end.

(** [k] more occurrences on top of a count that may be absent. *)
Definition add_count (o : option Z) (k : Z) : option Z :=
  if decide (k = 0) then o else Some (default 0 o + k).

Definition ev2 : stream.Record_ := stream.mkRecord "e2" "event" "open" "1" ∅ 15.

(** What [processRecord] makes of the customer [c] it resolves, given the
    applied record ids [seen]: the three arms of its [switch] and the
    watermark update, on the customer alone. *)
Definition applied (r : stream.Record_) (seen : gmap string bool) (c : serve.Customer)
  : serve.Customer :=
  if decide (stream.Type_ r = "event") then
    match seen !! stream.ID r with
    | Some _ => c
    | None => raise_LastUpdated (stream.Timestamp r) (count_event (stream.Name r) c)
    end
  else if decide (stream.Type_ r = "attributes") then
    raise_LastUpdated (stream.Timestamp r)
      (if decide (stream.Timestamp r >= serve.LastUpdated c)
       then set_attributes (stream.Data r) c else c)
  else raise_LastUpdated (stream.Timestamp r) c.

(** ** Basic facts about slices and the range loop *)

Lemma index_Done {A : Type} (l : list A) (i : Z) (x : A) :
  index l i = Done x <-> 0 <= i /\ l !! Z.to_nat i = Some x.
Proof.
  unfold index. destruct (decide (0 <= i)) as [Hi|Hi].
  - destruct (l !! Z.to_nat i) eqn:E; split.
    + intros [= ->]. auto.
    + intros [_ [= ->]]. reflexivity.
    + discriminate.
    + intros [_ ?]. discriminate.
  - split; [discriminate | intros [? _]; contradiction].
Qed.

Lemma index_in_bounds {A : Type} (l : list A) (i : Z) :
  0 <= i < len l -> exists x, index l i = Done x.
Proof.
  intros [H0 H1]. unfold len in H1.
  destruct (lookup_lt_is_Some_2 l (Z.to_nat i)) as [x Hx]; [lia|].
  exists x. apply index_Done. auto.
Qed.

Lemma index_Done_bounds {A : Type} (l : list A) (i : Z) (x : A) :
  index l i = Done x -> 0 <= i < len l.
Proof.
  intros [H0 H]%index_Done. apply lookup_lt_Some in H. unfold len. lia.
Qed.

Lemma index_of_nat {A : Type} (l : list A) (i : nat) (x : A) :
  l !! i = Some x -> index l (Z.of_nat i) = Done x.
Proof. intros H. apply index_Done. rewrite Nat2Z.id. split; [lia | exact H]. Qed.

Lemma len_app_one {A : Type} (l : list A) (x : A) : len (l ++ [x]) = len l + 1.
Proof. unfold len. rewrite length_app. simpl. lia. Qed.

Lemma len_insert {A : Type} (l : list A) (i : nat) (x : A) : len (<[i := x]> l) = len l.
Proof. unfold len. by rewrite length_insert. Qed.

Lemma range_assign_union (src dst : gmap string string) :
  range_assign src dst = src ∪ dst.
Proof.
  unfold range_assign.
  apply (map_fold_weak_ind (fun r m => r = m ∪ dst)).
  - by rewrite (left_id_L ∅ (∪)).
  - intros k v m r _ ->. by rewrite insert_union_l.
Qed.

Lemma range_assign_lookup_src (src dst : gmap string string) k v :
  src !! k = Some v -> range_assign src dst !! k = Some v.
Proof. intros H. rewrite range_assign_union. by apply lookup_union_Some_l. Qed.

Lemma range_assign_empty (src : gmap string string) : range_assign src ∅ = src.
Proof. rewrite range_assign_union. by rewrite (right_id_L ∅ (∪)). Qed.

(** ** What one record does *)

Lemma processRecord_error r s e s' :
  processRecord r s = Done (Some e, s') -> Atoi (stream.UserID r) = err e /\ s' = s.
Proof.
  unfold processRecord. destruct (Atoi (stream.UserID r)) as [id|e0].
  - destruct (index _ _); simpl; [|discriminate].
    repeat (case_decide || case_match); discriminate.
  - intros [= -> ->]. auto.
Qed.

(** [processRecord] on a record whose user id parses and whose index entry
    resolves to a customer: no error, and the datastore it leaves. *)
Lemma processRecord_resolved r s id c :
  Atoi (stream.UserID r) = ok id ->
  index (customers s) (default 0 (customerLinks s !! id)) = Done c ->
  exists s', processRecord r s = Done (None, s')
    /\ customerLinks s' = customerLinks s
    /\ len (customers s') = len (customers s).
Proof.
  intros Hid Hc. unfold processRecord. rewrite Hid, Hc. simpl.
  repeat (case_decide || case_match);
    eexists; (split; [reflexivity|]); simpl; auto using len_insert.
Qed.

Lemma registerCustomerFromRecord_ok r s id :
  Atoi (stream.UserID r) = ok id ->
  registerCustomerFromRecord r s =
    (ok (serve.mkCustomer id ∅ ∅ (stream.Timestamp r)),
     {| customers := customers s ++ [serve.mkCustomer id ∅ ∅ (stream.Timestamp r)];
        customerLinks := <[id := len (customers s)]> (customerLinks s);
        processedEventsMap := processedEventsMap s |}).
Proof.
  intros Hid. unfold registerCustomerFromRecord. rewrite Hid.
  unfold set_customerLinks, set_customers. simpl.
  rewrite len_app_one. do 3 f_equal. lia.
Qed.

Lemma New_body_invalid r s e :
  Atoi (stream.UserID r) = err e -> New_body r s = Done (Next s).
Proof. intros H. unfold New_body, isUserRegistered. by rewrite H. Qed.

Lemma New_body_no_Return r s e : New_body r s <> Done (Return e).
Proof.
  unfold New_body, isUserRegistered.
  destruct (Atoi (stream.UserID r)) as [id|e0] eqn:Hid; [|discriminate].
  assert (forall s1, (r0 <~ processRecord r s1 ;;
            match r0 with
            | (Some e1, _) => Done (Return e1)
            | (None, store) => Done (Next store)
            end) <> Done (Return e)) as H.
  { intros s1. destruct (processRecord r s1) as [[[e1|] s2]|] eqn:E; simpl; try discriminate.
    apply processRecord_error in E as [E _]. congruence. }
  destruct (customerLinks s !! id); apply H.
Qed.

Lemma New_body_in_bounds r s :
  links_in_bounds s ->
  exists s', New_body r s = Done (Next s') /\ links_in_bounds s'.
Proof.
  intros Hb. unfold New_body, isUserRegistered.
  destruct (Atoi (stream.UserID r)) as [id|e0] eqn:Hid; [|eauto].
  destruct (customerLinks s !! id) as [pos|] eqn:Hl.
  - destruct (index_in_bounds (customers s) pos) as [c Hc]; [eauto|].
    destruct (processRecord_resolved r s id c Hid) as (s' & -> & Hl' & Hn).
    { by rewrite Hl. }
    simpl. exists s'. split; [done|]. intros i p. rewrite Hl', Hn. apply Hb.
  - rewrite (registerCustomerFromRecord_ok r s id Hid). simpl.
    set (s1 := mkDatastore _ _ _).
    destruct (processRecord_resolved r s1 id
                (serve.mkCustomer id ∅ ∅ (stream.Timestamp r)) Hid) as (s' & -> & Hl' & Hn).
    { simpl. rewrite lookup_insert_eq. simpl. apply index_Done.
      unfold len. rewrite Nat2Z.id. split; [lia|]. apply list_lookup_middle. done. }
    simpl. exists s'. split; [done|]. intros i p. rewrite Hl', Hn. simpl.
    rewrite len_app_one. rewrite lookup_insert. case_decide.
    + intros [= <-]. unfold len. lia.
    + intros H1%Hb. lia.
Qed.

Lemma New_loop_in_bounds rs s :
  links_in_bounds s ->
  exists s', New_loop rs s = Done (ok s') /\ links_in_bounds s'.
Proof.
  revert s. induction rs as [|r rs IH]; intros s Hb; simpl.
  - eauto.
  - destruct (New_body_in_bounds r s Hb) as (s1 & -> & Hb1). simpl. auto.
Qed.

Lemma links_in_bounds_empty : links_in_bounds empty_store.
Proof. intros id pos. simpl. by rewrite lookup_empty. Qed.

Lemma New_loop_app rs1 rs2 s :
  New_loop (rs1 ++ rs2) s =
  (r <~ New_loop rs1 s ;;
   match r with
   | ok s' => New_loop rs2 s'
   | err e => Done (err e)
   end).
Proof.
  revert s. induction rs1 as [|r rs1 IH]; intros s; simpl; [done|].
  destruct (New_body r s) as [[s1|e]|]; simpl; auto.
Qed.

(** The three arms of the [switch] of [processRecord], for a record whose
    user id parses and whose index entry resolves to a customer. *)
Section processRecord_arms.
Variables (r : stream.Record_) (s : Datastore) (id pos : Z) (c : serve.Customer).
Hypothesis Hid : Atoi (stream.UserID r) = ok id.
Hypothesis Hpos : customerLinks s !! id = Some pos.
Hypothesis Hc : index (customers s) pos = Done c.

Lemma processRecord_event_duplicate :
  stream.Type_ r = "event" ->
  is_Some (processedEventsMap s !! stream.ID r) ->
  processRecord r s = Done (None, s).
Proof using Hid Hpos Hc.
  intros Ht [b Hb]. unfold processRecord. rewrite Hid, Hpos. simpl. rewrite Hc. simpl.
  rewrite decide_True by done. by rewrite Hb.
Qed.

Lemma processRecord_event_fresh :
  stream.Type_ r = "event" ->
  processedEventsMap s !! stream.ID r = None ->
  processRecord r s =
    Done (None,
          store_customer pos
            (raise_LastUpdated (stream.Timestamp r) (count_event (stream.Name r) c))
            (set_processedEventsMap
               (<[stream.ID r := true]> (processedEventsMap s)) s)).
Proof using Hid Hpos Hc.
  intros Ht Hb. unfold processRecord. rewrite Hid, Hpos. simpl. rewrite Hc. simpl.
  rewrite decide_True by done. by rewrite Hb.
Qed.

Lemma processRecord_attributes :
  stream.Type_ r = "attributes" ->
  processRecord r s =
    Done (None,
          store_customer pos
            (raise_LastUpdated (stream.Timestamp r)
               (if decide (stream.Timestamp r >= serve.LastUpdated c)
                then set_attributes (stream.Data r) c else c))
            s).
Proof using Hid Hpos Hc.
  intros Ht. unfold processRecord. rewrite Hid, Hpos. simpl. rewrite Hc. simpl.
  rewrite decide_False by (rewrite Ht; discriminate).
  by rewrite decide_True by done.
Qed.

Lemma processRecord_other :
  stream.Type_ r <> "event" -> stream.Type_ r <> "attributes" ->
  processRecord r s =
    Done (None, store_customer pos (raise_LastUpdated (stream.Timestamp r) c) s).
Proof using Hid Hpos Hc.
  intros Ht1 Ht2. unfold processRecord. rewrite Hid, Hpos. simpl. rewrite Hc. simpl.
  by rewrite !decide_False by done.
Qed.
End processRecord_arms.

Lemma New_body_registered r s id pos :
  Atoi (stream.UserID r) = ok id ->
  customerLinks s !! id = Some pos ->
  New_body r s =
    (r0 <~ processRecord r s ;;
     match r0 with
     | (Some e, _) => Done (Return e)
     | (None, store) => Done (Next store)
     end).
Proof. intros Hid Hl. unfold New_body, isUserRegistered. by rewrite Hid, Hl. Qed.

Lemma New_body_unregistered r s id :
  Atoi (stream.UserID r) = ok id ->
  customerLinks s !! id = None ->
  New_body r s =
    (r0 <~ processRecord r (snd (registerCustomerFromRecord r s)) ;;
     match r0 with
     | (Some e, _) => Done (Return e)
     | (None, store) => Done (Next store)
     end).
Proof. intros Hid Hl. unfold New_body, isUserRegistered. by rewrite Hid, Hl. Qed.

(** The customer a fresh registration appends is the one its index entry
    resolves to. *)
Lemma registered_resolves r s id :
  Atoi (stream.UserID r) = ok id ->
  let s1 := snd (registerCustomerFromRecord r s) in
  customerLinks s1 !! id = Some (len (customers s))
  /\ index (customers s1) (len (customers s))
       = Done (serve.mkCustomer id ∅ ∅ (stream.Timestamp r))
  /\ customers s1 = customers s ++ [serve.mkCustomer id ∅ ∅ (stream.Timestamp r)]
  /\ processedEventsMap s1 = processedEventsMap s.
Proof.
  intros Hid. rewrite (registerCustomerFromRecord_ok r s id Hid). simpl.
  split; [by rewrite lookup_insert_eq|]. split; [|done].
  apply index_Done. unfold len. rewrite Nat2Z.id. split; [lia|].
  by apply list_lookup_middle.
Qed.

Lemma store_customer_index s pos c0 c1 :
  index (customers s) pos = Done c0 ->
  index (customers (store_customer pos c1 s)) pos = Done c1.
Proof.
  intros H. pose proof (index_Done_bounds _ _ _ H) as Hb. apply index_Done.
  split; [lia|]. simpl. apply list_lookup_insert_eq. unfold len in Hb. lia.
Qed.

Lemma store_customer_lookup s pos c0 c1 (i : nat) c :
  index (customers s) pos = Done c0 ->
  customers s !! i = Some c ->
  customers (store_customer pos c1 s) !! i
    = Some (if decide (i = Z.to_nat pos) then c1 else c)
  /\ (i = Z.to_nat pos -> c = c0).
Proof.
  intros [H0 H]%index_Done Hi. simpl. case_decide as E.
  - subst i. split; [|congruence]. apply list_lookup_insert_eq. by eapply lookup_lt_Some.
  - split; [|done]. by rewrite list_lookup_insert_ne.
Qed.

Lemma processRecord_panics r s id pos :
  Atoi (stream.UserID r) = ok id ->
  customerLinks s !! id = Some pos ->
  index (customers s) pos = Panic ->
  processRecord r s = Panic.
Proof. intros Hid Hl Hc. unfold processRecord. rewrite Hid, Hl. simpl. by rewrite Hc. Qed.

(** ** Events are counted once *)

Lemma processRecord_event_idem r s id pos e s1 :
  Atoi (stream.UserID r) = ok id ->
  customerLinks s !! id = Some pos ->
  stream.Type_ r = "event" ->
  processRecord r s = Done (e, s1) ->
  e = None
  /\ processRecord r s1 = Done (None, s1)
  /\ customerLinks s1 = customerLinks s
  /\ is_Some (processedEventsMap s1 !! stream.ID r).
Proof.
  intros Hid Hl Ht H.
  destruct (index (customers s) pos) as [c|] eqn:Hc.
  2:{ rewrite (processRecord_panics r s id pos) in H by done. discriminate. }
  destruct (processedEventsMap s !! stream.ID r) as [b|] eqn:Hp.
  - rewrite (processRecord_event_duplicate r s id pos c) in H by eauto.
    injection H as <- <-. split; [done|].
    rewrite (processRecord_event_duplicate r s id pos c) by eauto. eauto.
  - rewrite (processRecord_event_fresh r s id pos c) in H by eauto.
    injection H as <- <-. split; [done|]. split; [|split; [done|]].
    + eapply (processRecord_event_duplicate _ _ id pos); eauto.
      * eapply (store_customer_index (set_processedEventsMap _ s)). exact Hc.
      * simpl. rewrite lookup_insert_eq. eauto.
    + simpl. rewrite lookup_insert_eq. eauto.
Qed.

Lemma New_body_event_idem r s s1 :
  stream.Type_ r = "event" ->
  New_body r s = Done (Next s1) ->
  New_body r s1 = Done (Next s1)
  /\ (forall id, Atoi (stream.UserID r) = ok id ->
        is_Some (processedEventsMap s1 !! stream.ID r)).
Proof.
  intros Ht H.
  destruct (Atoi (stream.UserID r)) as [id|e0] eqn:Hid.
  2:{ rewrite (New_body_invalid r s e0 Hid) in H. injection H as <-.
      split; [by apply (New_body_invalid r s e0)|discriminate]. }
  destruct (customerLinks s !! id) as [pos|] eqn:Hl.
  - rewrite (New_body_registered r s id pos Hid Hl) in H.
    destruct (processRecord r s) as [[e s2]|] eqn:E; [|discriminate].
    destruct (processRecord_event_idem r s id pos e s2 Hid Hl Ht E) as (-> & E2 & Hl2 & Hp).
    simpl in H. injection H as <-.
    split; [|auto].
    rewrite (New_body_registered r s2 id pos Hid) by congruence. by rewrite E2.
  - rewrite (New_body_unregistered r s id Hid Hl) in H.
    destruct (registered_resolves r s id Hid) as (Hl0 & _).
    set (s0 := snd (registerCustomerFromRecord r s)) in *.
    destruct (processRecord r s0) as [[e s2]|] eqn:E; [|discriminate].
    destruct (processRecord_event_idem r s0 id _ e s2 Hid Hl0 Ht E) as (-> & E2 & Hl2 & Hp).
    simpl in H. injection H as <-.
    split; [|auto].
    rewrite (New_body_registered r s2 id (len (customers s)) Hid) by congruence.
    by rewrite E2.
Qed.

(** A record whose id is already in [processedEventsMap] leaves every stored
    customer as it is; the only trace it can leave is the registration of its
    user, with no events. *)
Lemma New_body_event_processed r s s1 :
  stream.Type_ r = "event" ->
  is_Some (processedEventsMap s !! stream.ID r) ->
  New_body r s = Done (Next s1) ->
  processedEventsMap s1 = processedEventsMap s
  /\ (customers s1 = customers s
      \/ exists c, customers s1 = customers s ++ [c] /\ serve.Events c = ∅).
Proof.
  intros Ht Hp H.
  destruct (Atoi (stream.UserID r)) as [id|e0] eqn:Hid.
  2:{ rewrite (New_body_invalid r s e0 Hid) in H. injection H as <-. auto. }
  destruct (customerLinks s !! id) as [pos|] eqn:Hl.
  - rewrite (New_body_registered r s id pos Hid Hl) in H.
    destruct (index (customers s) pos) as [c|] eqn:Hc.
    2:{ rewrite (processRecord_panics r s id pos) in H by done. discriminate. }
    rewrite (processRecord_event_duplicate r s id pos c) in H by done.
    simpl in H. injection H as <-. auto.
  - rewrite (New_body_unregistered r s id Hid Hl) in H.
    destruct (registered_resolves r s id Hid) as (Hl0 & Hc0 & Hcs & Hp0).
    set (s0 := snd (registerCustomerFromRecord r s)) in *.
    rewrite (processRecord_event_duplicate r s0 id _ _ Hid Hl0 Hc0 Ht) in H
      by (by rewrite Hp0).
    simpl in H. injection H as <-. split; [done|]. right. eauto.
Qed.

(** [processedEventsMap] only ever grows. *)
Lemma processRecord_processed_mono r s e s1 k :
  processRecord r s = Done (e, s1) ->
  is_Some (processedEventsMap s !! k) -> is_Some (processedEventsMap s1 !! k).
Proof.
  unfold processRecord. destruct (Atoi (stream.UserID r)); [|by intros [= <- <-]].
  destruct (index _ _); simpl; [|discriminate].
  repeat (case_decide || case_match); intros [= <- <-]; simpl; auto.
  intros Hk. rewrite lookup_insert. case_decide; eauto.
Qed.

Lemma New_body_processed_mono r s s1 k :
  New_body r s = Done (Next s1) ->
  is_Some (processedEventsMap s !! k) -> is_Some (processedEventsMap s1 !! k).
Proof.
  unfold New_body, isUserRegistered.
  destruct (Atoi (stream.UserID r)) as [id|] eqn:Hid; [|by intros [= <-]].
  destruct (customerLinks s !! id).
  - destruct (processRecord r s) as [[[e|] s2]|] eqn:E; simpl; try discriminate.
    intros [= <-]. by eapply processRecord_processed_mono.
  - destruct (registered_resolves r s id Hid) as (_ & _ & _ & Hp).
    destruct (processRecord r _) as [[[e|] s2]|] eqn:E; simpl; try discriminate.
    intros [= <-] Hk. eapply processRecord_processed_mono; [exact E|]. by rewrite Hp.
Qed.

Lemma fixLinks_frame s e s1 :
  fixLinks s = Done (e, s1) ->
  e = None /\ customers s1 = customers s /\ processedEventsMap s1 = processedEventsMap s.
Proof.
  unfold fixLinks. destruct (fixLinks_loop _ _ _ _); simpl; [|discriminate].
  by intros [= <- <-].
Qed.

Lemma Delete_processed id s e s1 :
  Delete id s = Done (e, s1) -> processedEventsMap s1 = processedEventsMap s.
Proof.
  unfold Delete. destruct (customerLinks s !! id); [|by intros [= <- <-]].
  destruct (index _ _); simpl; [|discriminate].
  destruct (set_index _ _ _); simpl; [|discriminate].
  intros (_ & _ & ->)%fixLinks_frame. done.
Qed.

Lemma run_op_processed_mono o s s1 k :
  run_op o s = Done s1 ->
  is_Some (processedEventsMap s !! k) -> is_Some (processedEventsMap s1 !! k).
Proof.
  destruct o as [r|id a now|id a now|id]; simpl.
  - destruct (New_body r s) as [[s2|e]|] eqn:E; simpl; try discriminate.
    + intros [= <-]. by eapply New_body_processed_mono.
    + by intros [= <-].
  - unfold Create. destruct (customerLinks s !! id); simpl; by intros [= <-].
  - unfold Update. destruct (customerLinks s !! id); simpl; [|by intros [= <-]].
    destruct (index _ _); simpl; [|discriminate]. by intros [= <-].
  - destruct (Delete id s) as [[e s2]|] eqn:E; simpl; [|discriminate].
    intros [= <-]. by rewrite (Delete_processed _ _ _ _ E).
Qed.

Lemma run_ops_processed_mono os s s1 k :
  run_ops os s = Done s1 ->
  is_Some (processedEventsMap s !! k) -> is_Some (processedEventsMap s1 !! k).
Proof.
  revert s. induction os as [|o os IH]; intros s; simpl.
  - by intros [= <-].
  - destruct (run_op o s) as [s2|] eqn:E; simpl; [|discriminate].
    intros H Hk. eapply IH; [exact H|]. by eapply run_op_processed_mono.
Qed.

(** C3 (event idempotence under at-least-once delivery).  For every registry
    state [s] and every event record [r]: ingesting [r] twice leaves exactly
    the registry that ingesting it once leaves (so the same event counts for
    every customer); on a registry whose index is within bounds the
    ingestion does return a registry; and the set of applied record ids is
    global and permanent: once [r] (with a user id that parses) has been
    applied, then after any further history [os] of the registry an event
    record [r'] with the same record id, whatever customer it names, leaves
    the applied set and every stored customer as they are, and at most
    registers its user with no event counted. *)
Theorem event_idempotence (s : Datastore) (r : stream.Record_) :
  stream.Type_ r = "event" ->
  New_loop [r; r] s = New_loop [r] s
  /\ (links_in_bounds s -> exists s1, New_loop [r] s = Done (ok s1))
  /\ (forall id s1 os s2 r' s3,
        Atoi (stream.UserID r) = ok id ->
        New_loop [r] s = Done (ok s1) ->
        run_ops os s1 = Done s2 ->
        stream.Type_ r' = "event" ->
        stream.ID r' = stream.ID r ->
        New_loop [r'] s2 = Done (ok s3) ->
        is_Some (processedEventsMap s2 !! stream.ID r)
        /\ processedEventsMap s3 = processedEventsMap s2
        /\ (customers s3 = customers s2
            \/ exists c, customers s3 = customers s2 ++ [c] /\ serve.Events c = ∅)).
Proof.
  intros Ht. split; [|split].
  - simpl. destruct (New_body r s) as [[s1|e]|] eqn:E; simpl; try done.
    destruct (New_body_event_idem r s s1 Ht E) as [-> _]. done.
  - intros Hb. destruct (New_loop_in_bounds [r] s Hb) as (s1 & H & _). eauto.
  - intros id s1 os s2 r' s3 Hid H1 Hos Ht' Hsame H3.
    simpl in H1. destruct (New_body r s) as [[s1'|e]|] eqn:E; simpl in H1; try discriminate.
    injection H1 as ->.
    destruct (New_body_event_idem r s s1 Ht E) as [_ Hp]. specialize (Hp id Hid).
    pose proof (run_ops_processed_mono os s1 s2 _ Hos Hp) as Hp2.
    split; [done|].
    simpl in H3. destruct (New_body r' s2) as [[s3'|e]|] eqn:E'; simpl in H3; try discriminate.
    injection H3 as ->.
    apply (New_body_event_processed r' s2 s3 Ht'); [by rewrite Hsame | done].
Qed.

(** C3 at the empty registry: the event "e1" of user 1 twice, and then the
    same record id delivered for user 2. *)
Lemma event_idempotence_witness :
  stream.Type_ ev1 = "event"
  /\ New_loop [ev1; ev1] empty_store = New_loop [ev1] empty_store
  /\ exists s1 s3,
       New_loop [ev1] empty_store = Done (ok s1)
       /\ New_loop [ev1_user2] s1 = Done (ok s3)
       /\ is_Some (processedEventsMap s1 !! "e1")
       /\ processedEventsMap s3 = processedEventsMap s1
       /\ (customers s3 = customers s1
           \/ exists c, customers s3 = customers s1 ++ [c] /\ serve.Events c = ∅).
Proof.
  destruct (event_idempotence empty_store ev1 eq_refl) as (H1 & _ & H3).
  split; [reflexivity|]. split; [exact H1|].
  exists (store_customer 0 (serve.mkCustomer 1 ∅ {["open" := 1]} 10)
            (set_processedEventsMap {["e1" := true]}
               (snd (registerCustomerFromRecord ev1 empty_store)))).
  eexists.
  split; [vm_compute; reflexivity|]. split; [vm_compute; reflexivity|].
  eapply (H3 1 _ [] _ ev1_user2); vm_compute; reflexivity.
Defined.

(** ** The watermark *)

Lemma raise_LastUpdated_ID ts c : serve.ID (raise_LastUpdated ts c) = serve.ID c.
Proof. unfold raise_LastUpdated. by case_decide. Qed.

Lemma raise_LastUpdated_Attributes ts c :
  serve.Attributes (raise_LastUpdated ts c) = serve.Attributes c.
Proof. unfold raise_LastUpdated. by case_decide. Qed.

Lemma raise_LastUpdated_Events ts c :
  serve.Events (raise_LastUpdated ts c) = serve.Events c.
Proof. unfold raise_LastUpdated. by case_decide. Qed.

Lemma raise_LastUpdated_max ts c :
  serve.LastUpdated (raise_LastUpdated ts c) = Z.max (serve.LastUpdated c) ts.
Proof. unfold raise_LastUpdated. case_decide; simpl; lia. Qed.

Lemma raise_LastUpdated_old ts c :
  ts <= serve.LastUpdated c -> raise_LastUpdated ts c = c.
Proof. intros H. unfold raise_LastUpdated. rewrite decide_False by lia. done. Qed.

Lemma store_customer_same s pos c :
  index (customers s) pos = Done c -> store_customer pos c s = s.
Proof.
  intros [_ H]%index_Done. destruct s as [cs l p]. unfold store_customer, set_customers.
  simpl in *. f_equal. by apply list_insert_id.
Qed.

(** ** Attribute records *)

Lemma New_body_attributes r s id pos c :
  Atoi (stream.UserID r) = ok id ->
  customerLinks s !! id = Some pos ->
  index (customers s) pos = Done c ->
  stream.Type_ r = "attributes" ->
  New_body r s =
    Done (Next (store_customer pos
                  (raise_LastUpdated (stream.Timestamp r)
                     (if decide (stream.Timestamp r >= serve.LastUpdated c)
                      then set_attributes (stream.Data r) c else c))
                  s)).
Proof.
  intros Hid Hl Hc Ht. rewrite (New_body_registered r s id pos Hid Hl).
  by rewrite (processRecord_attributes r s id pos c Hid Hl Hc Ht).
Qed.

(** An attribute record older than the watermark changes nothing at all. *)
Lemma New_body_attributes_stale r s id pos c :
  Atoi (stream.UserID r) = ok id ->
  customerLinks s !! id = Some pos ->
  index (customers s) pos = Done c ->
  stream.Type_ r = "attributes" ->
  stream.Timestamp r < serve.LastUpdated c ->
  New_body r s = Done (Next s).
Proof.
  intros Hid Hl Hc Ht Hlt. rewrite (New_body_attributes r s id pos c) by done.
  rewrite decide_False by lia. rewrite raise_LastUpdated_old by lia.
  by rewrite store_customer_same.
Qed.

Lemma Get_resolved s id pos c :
  customerLinks s !! id = Some pos ->
  index (customers s) pos = Done c ->
  Get id s = Done (ok c, s).
Proof. intros Hl Hc. unfold Get. rewrite Hl, Hc. done. Qed.

(** C4 (attribute last-writer-wins).  For a customer [c] that the index
    entry of [id] resolves to, with [lastUpdated] at most t1, and two
    attribute records [a1] (timestamp t1) and [a2] (timestamp t2 > t1) for
    [id] that both set key [k]: ingested in the order [a1; a2] the key holds
    the value of [a2]; ingested in the order [a2; a1] the record [a1] is
    dropped without error (it leaves the registry exactly as [a2] left it)
    and the key again holds the value of [a2]. *)
Theorem attribute_last_writer_wins
    (s : Datastore) (a1 a2 : stream.Record_) (id pos : Z) (c : serve.Customer)
    (k v1 v2 : string) :
  stream.Type_ a1 = "attributes" ->
  stream.Type_ a2 = "attributes" ->
  Atoi (stream.UserID a1) = ok id ->
  Atoi (stream.UserID a2) = ok id ->
  customerLinks s !! id = Some pos ->
  index (customers s) pos = Done c ->
  serve.LastUpdated c <= stream.Timestamp a1 ->
  stream.Timestamp a1 < stream.Timestamp a2 ->
  stream.Data a1 !! k = Some v1 ->
  stream.Data a2 !! k = Some v2 ->
  (exists s12 c12,
      New_loop [a1; a2] s = Done (ok s12)
      /\ Get id s12 = Done (ok c12, s12)
      /\ serve.Attributes c12 !! k = Some v2)
  /\ (exists s2 c2,
      New_loop [a2] s = Done (ok s2)
      /\ New_loop [a1] s2 = Done (ok s2)
      /\ New_loop [a2; a1] s = Done (ok s2)
      /\ Get id s2 = Done (ok c2, s2)
      /\ serve.Attributes c2 !! k = Some v2).
Proof.
  intros Ht1 Ht2 Hid1 Hid2 Hl Hc Hlu Hlt Hk1 Hk2. split.
  - set (c1 := raise_LastUpdated (stream.Timestamp a1)
                 (set_attributes (stream.Data a1) c)).
    set (s1 := store_customer pos c1 s).
    assert (New_body a1 s = Done (Next s1)) as E1.
    { rewrite (New_body_attributes a1 s id pos c) by done.
      by rewrite decide_True by lia. }
    assert (index (customers s1) pos = Done c1) as Hc1
      by (by eapply store_customer_index).
    assert (serve.LastUpdated c1 <= stream.Timestamp a2) as Hlu1.
    { unfold c1. rewrite raise_LastUpdated_max. simpl. lia. }
    set (c2 := raise_LastUpdated (stream.Timestamp a2)
                 (set_attributes (stream.Data a2) c1)).
    exists (store_customer pos c2 s1), c2. split; [|split].
    + simpl. rewrite E1. simpl.
      rewrite (New_body_attributes a2 s1 id pos c1) by done.
      by rewrite decide_True by lia.
    + apply (Get_resolved _ id pos); [done|]. by eapply store_customer_index.
    + unfold c2. rewrite raise_LastUpdated_Attributes. simpl.
      by apply range_assign_lookup_src.
  - set (c2 := raise_LastUpdated (stream.Timestamp a2)
                 (set_attributes (stream.Data a2) c)).
    set (s2 := store_customer pos c2 s).
    assert (New_body a2 s = Done (Next s2)) as E2.
    { rewrite (New_body_attributes a2 s id pos c) by done.
      by rewrite decide_True by lia. }
    assert (index (customers s2) pos = Done c2) as Hc2
      by (by eapply store_customer_index).
    assert (stream.Timestamp a1 < serve.LastUpdated c2) as Hlu2.
    { unfold c2. rewrite raise_LastUpdated_max. simpl. lia. }
    assert (New_body a1 s2 = Done (Next s2)) as E1
      by (by apply (New_body_attributes_stale a1 s2 id pos c2)).
    exists s2, c2. repeat split.
    + simpl. by rewrite E2.
    + simpl. by rewrite E1.
    + simpl. rewrite E2. simpl. by rewrite E1.
    + by apply (Get_resolved _ id pos).
    + unfold c2. rewrite raise_LastUpdated_Attributes. simpl.
      by apply range_assign_lookup_src.
Qed.

(** C4 at a concrete registry: customer 1 with watermark 0, "color" set to
    "red" at 5 and to "blue" at 20. *)
Lemma attribute_last_writer_wins_witness :
  (exists s12 c12,
      New_loop [at1; at2] s_one = Done (ok s12)
      /\ Get 1 s12 = Done (ok c12, s12)
      /\ serve.Attributes c12 !! "color" = Some "blue")
  /\ (exists s2 c2,
      New_loop [at2] s_one = Done (ok s2)
      /\ New_loop [at1] s2 = Done (ok s2)
      /\ New_loop [at2; at1] s_one = Done (ok s2)
      /\ Get 1 s2 = Done (ok c2, s2)
      /\ serve.Attributes c2 !! "color" = Some "blue").
Proof.
  apply (attribute_last_writer_wins s_one at1 at2 1 0 (serve.mkCustomer 1 ∅ ∅ 0)
           "color" "red" "blue");
    first [reflexivity | simpl; lia].
Defined.

(** ** The watermark and the two kinds of record *)

(** A duplicate event returns from [processRecord] before the watermark is
    looked at: it changes nothing at all. *)
Lemma New_body_event_duplicate r s id pos c :
  Atoi (stream.UserID r) = ok id ->
  customerLinks s !! id = Some pos ->
  index (customers s) pos = Done c ->
  stream.Type_ r = "event" ->
  is_Some (processedEventsMap s !! stream.ID r) ->
  New_body r s = Done (Next s).
Proof.
  intros Hid Hl Hc Ht Hp. rewrite (New_body_registered r s id pos Hid Hl).
  by rewrite (processRecord_event_duplicate r s id pos c).
Qed.

(** C5 as the specification states it fails on a duplicate event: in the
    registry that [New [ev0]] builds (customer 1, watermark 1, record id "e1"
    applied), the event [ev1] carries the applied record id "e1" and
    timestamp 10 > 1; it is skipped, the watermark stays 1, and the
    attribute record [at1] with timestamp 5 is applied, not dropped. *)
Lemma watermark_asymmetry_counterexample :
  New [ev0] = Done (ok s_dup)
  /\ New_loop [ev1] s_dup = Done (ok s_dup)
  /\ (exists s2,
        New_loop [at1] s_dup = Done (ok s2)
        /\ Get 1 s2 = Done (ok (serve.mkCustomer 1 {["color" := "red"]} {["open" := 1]} 5), s2))
  /\ ~ watermark_asymmetry_at s_dup ev1 at1 1 0 (serve.mkCustomer 1 ∅ {["open" := 1]} 1).
Proof.
  assert (New_loop [ev1] s_dup = Done (ok s_dup)) as E1 by (vm_compute; reflexivity).
  split; [vm_compute; reflexivity|]. split; [exact E1|]. split.
  - eexists. split; vm_compute; reflexivity.
  - intros H. unfold watermark_asymmetry_at in H.
    destruct H as (s1 & c1 & H1 & G1 & Hlu & _);
      try first [reflexivity | simpl; lia].
    rewrite E1 in H1. injection H1 as <-.
    assert (Get 1 s_dup = Done (ok (serve.mkCustomer 1 ∅ {["open" := 1]} 1), s_dup)) as G
      by (vm_compute; reflexivity).
    rewrite G in G1. injection G1 as <-. simpl in Hlu. discriminate.
Qed.

(** C5, amended (watermark asymmetry).  For a customer [c] that the index
    entry of [id] resolves to, an event record [e] for [id] whose record id
    has not been applied yet and whose timestamp t3 is above the customer's
    watermark raises the watermark to t3; an attribute record [a] for [id]
    ingested next, with a timestamp t2 strictly between the old watermark
    and t3, is dropped: it leaves the registry, and so the customer's
    attributes, exactly as the event left them. *)
Theorem watermark_asymmetry
    (s : Datastore) (e a : stream.Record_) (id pos : Z) (c : serve.Customer) :
  processedEventsMap s !! stream.ID e = None ->
  watermark_asymmetry_at s e a id pos c.
Proof.
  intros Hp Hl Hc Hte Hide Hta Hida Hts.
  set (c1 := raise_LastUpdated (stream.Timestamp e) (count_event (stream.Name e) c)).
  set (s1 := store_customer pos c1
               (set_processedEventsMap
                  (<[stream.ID e := true]> (processedEventsMap s)) s)).
  assert (New_body e s = Done (Next s1)) as E1.
  { rewrite (New_body_registered e s id pos Hide Hl).
    by rewrite (processRecord_event_fresh e s id pos c). }
  assert (index (customers s1) pos = Done c1) as Hc1.
  { eapply (store_customer_index (set_processedEventsMap _ s)). exact Hc. }
  assert (serve.LastUpdated c1 = stream.Timestamp e) as Hlu1.
  { unfold c1. rewrite raise_LastUpdated_max. simpl. lia. }
  assert (New_body a s1 = Done (Next s1)) as E2.
  { apply (New_body_attributes_stale a s1 id pos c1); try done. lia. }
  assert (Get id s1 = Done (ok c1, s1)) as G1 by (by apply (Get_resolved _ id pos)).
  exists s1, c1. split; [simpl; by rewrite E1|].
  split; [done|]. split; [done|].
  exists s1, c1. split; [simpl; by rewrite E2|]. done.
Qed.

(** C5 amended, at customer 1 with watermark 0: the fresh event "e1" at 10
    raises the watermark to 10 and the attributes dated 5 are dropped. *)
Lemma watermark_asymmetry_witness :
  exists s1 c1,
    New_loop [ev1] s_one = Done (ok s1)
    /\ Get 1 s1 = Done (ok c1, s1)
    /\ serve.LastUpdated c1 = 10
    /\ exists s2 c2,
         New_loop [at1] s1 = Done (ok s2)
         /\ Get 1 s2 = Done (ok c2, s2)
         /\ serve.Attributes c2 = serve.Attributes c1.
Proof.
  apply (watermark_asymmetry s_one ev1 at1 1 0 (serve.mkCustomer 1 ∅ ∅ 0));
    first [reflexivity | simpl; lia].
Defined.

(** ** I4: the watermark of a stored customer *)

Lemma store_customer_monotone s pos c0 c1 (i : nat) c :
  index (customers s) pos = Done c0 ->
  serve.ID c1 = serve.ID c0 ->
  serve.LastUpdated c0 <= serve.LastUpdated c1 ->
  customers s !! i = Some c ->
  exists c', customers (store_customer pos c1 s) !! i = Some c'
    /\ serve.ID c' = serve.ID c
    /\ serve.LastUpdated c <= serve.LastUpdated c'.
Proof.
  intros Hc Hid Hlu Hi.
  destruct (store_customer_lookup s pos c0 c1 i c Hc Hi) as [-> Heq].
  case_decide as E.
  - rewrite (Heq E). eauto.
  - exists c. split; [done|]. split; [done|lia].
Qed.

Lemma processRecord_monotone r s e s' (i : nat) c :
  processRecord r s = Done (e, s') ->
  customers s !! i = Some c ->
  exists c', customers s' !! i = Some c'
    /\ serve.ID c' = serve.ID c
    /\ serve.LastUpdated c <= serve.LastUpdated c'.
Proof.
  intros H Hi. unfold processRecord in H.
  destruct (Atoi (stream.UserID r)) as [id|e0].
  2:{ injection H as <- <-. exists c. split; [done|]. split; [done|lia]. }
  destruct (index (customers s) _) as [c0|] eqn:Hc; simpl in H; [|discriminate].
  repeat (case_decide || case_match); injection H as <- <-;
    try (exists c; split; [done|]; split; [done|lia]);
    (eapply (store_customer_monotone _ _ c0); [exact Hc | | | exact Hi]);
    rewrite ?raise_LastUpdated_ID, ?raise_LastUpdated_max; simpl; try done; lia.
Qed.

Lemma New_body_monotone r s s' (i : nat) c :
  New_body r s = Done (Next s') ->
  customers s !! i = Some c ->
  exists c', customers s' !! i = Some c'
    /\ serve.ID c' = serve.ID c
    /\ serve.LastUpdated c <= serve.LastUpdated c'.
Proof.
  intros H Hi. unfold New_body, isUserRegistered in H.
  destruct (Atoi (stream.UserID r)) as [id|e0] eqn:Hid.
  2:{ injection H as <-. exists c. split; [done|]. split; [done|lia]. }
  destruct (customerLinks s !! id).
  - destruct (processRecord r s) as [[[e|] s2]|] eqn:E; simpl in H; try discriminate.
    injection H as <-. by eapply processRecord_monotone.
  - destruct (registered_resolves r s id Hid) as (_ & _ & Hcs & _).
    destruct (processRecord r _) as [[[e|] s2]|] eqn:E; simpl in H; try discriminate.
    injection H as <-. eapply processRecord_monotone; [exact E|].
    rewrite Hcs. by apply lookup_app_l_Some.
Qed.

Lemma Update_lastUpdated id attributes now s v s' (i : nat) c :
  Update id attributes now s = Done (v, s') ->
  customers s !! i = Some c ->
  exists c', customers s' !! i = Some c'
    /\ serve.ID c' = serve.ID c
    /\ (serve.LastUpdated c' = serve.LastUpdated c \/ serve.LastUpdated c' = now).
Proof.
  intros H Hi. unfold Update in H.
  destruct (customerLinks s !! id) as [pos|]; [|injection H as <- <-; eauto].
  destruct (index (customers s) pos) as [c0|] eqn:Hc; simpl in H; [|discriminate].
  injection H as <- <-.
  destruct (store_customer_lookup s pos c0 (update_customer attributes now c0) i c Hc Hi)
    as [-> Heq].
  case_decide as E.
  - rewrite (Heq E). eexists. split; [done|]. simpl. auto.
  - eauto.
Qed.

(** C6 as the specification states it fails on [Update]: customer 1 was
    ingested with a record timestamp of 4102444800 (a date in 2100), and an
    [Update] at wall-clock 1700000000 lowers its [LastUpdated]. *)
Lemma lastUpdated_monotone_counterexample :
  New [at_future] = Done (ok s_future)
  /\ (exists c',
        Update 1 ∅ 1700000000 s_future
          = Done (ok c', store_customer 0 c' s_future)
        /\ serve.LastUpdated c' = 1700000000)
  /\ ~ lastUpdated_monotone_at (DoUpdate 1 ∅ 1700000000) s_future.
Proof.
  split; [vm_compute; reflexivity|]. split.
  - eexists. split; vm_compute; reflexivity.
  - intros H.
    destruct (H (store_customer 0 (serve.mkCustomer 1 ∅ ∅ 1700000000) s_future)
                0%nat (serve.mkCustomer 1 ∅ ∅ 4102444800))
      as (c' & Hc' & _ & Hlu); [vm_compute; reflexivity | reflexivity |].
    simpl in Hc'. injection Hc' as <-. simpl in Hlu. lia.
Qed.

(** C6, amended (watermark monotonicity, I4).  For every stored customer,
    every ingested record (event or attributes, duplicate or not) leaves the
    customer in its slot with a [LastUpdated] that has not decreased, and so
    does every [Update], provided the wall-clock time it reads is not
    earlier than the [LastUpdated] of the customer it updates. *)
Theorem lastUpdated_monotone (o : op) (s : Datastore) :
  is_ingest_or_update o = true ->
  (forall id attributes now pos c,
      o = DoUpdate id attributes now ->
      customerLinks s !! id = Some pos ->
      index (customers s) pos = Done c ->
      serve.LastUpdated c <= now) ->
  lastUpdated_monotone_at o s.
Proof.
  intros Ho Hnow s' i c H Hi.
  destruct o as [r|id a now|id a now|id]; try discriminate; simpl in H.
  - destruct (New_body r s) as [[s2|e]|] eqn:E; simpl in H; try discriminate.
    + injection H as <-. by eapply New_body_monotone.
    + by destruct (New_body_no_Return r s e).
  - unfold Update in H.
    destruct (customerLinks s !! id) as [pos|] eqn:Hl.
    2:{ injection H as <-. exists c. split; [done|]. split; [done|lia]. }
    destruct (index (customers s) pos) as [c0|] eqn:Hc; simpl in H; [|discriminate].
    injection H as <-.
    eapply (store_customer_monotone s pos c0); [exact Hc|done| |exact Hi].
    simpl. by apply (Hnow id a now pos c0).
Qed.

(** C6 amended, at the customer dated 4102444800 and an [Update] one second
    later. *)
Lemma lastUpdated_monotone_witness :
  lastUpdated_monotone_at (DoUpdate 1 ∅ 4102444801) s_future.
Proof.
  apply (lastUpdated_monotone (DoUpdate 1 ∅ 4102444801) s_future).
  - reflexivity.
  - intros id a now pos c [= <- _ <-] Hl Hc.
    vm_compute in Hl. injection Hl as <-.
    vm_compute in Hc. injection Hc as <-. simpl. lia.
Defined.

(** ** The end-to-end ingestion scenario *)

(** C7.  Ingesting, into an empty registry, the event "open" of user 1 at
    10, the attributes {color: red} of user 1 at 5 and the attributes
    {color: blue} of user 1 at 20 yields the registry that holds exactly one
    customer, with id 1, events {open: 1}, attributes {color: blue} and
    lastUpdated 20. *)
Theorem end_to_end_ingestion :
  New [ev1; at1; at2] =
    Done (ok {| customers :=
                  [ {| serve.ID := 1;
                       serve.Attributes := {["color" := "blue"]};
                       serve.Events := {["open" := 1]};
                       serve.LastUpdated := 20 |} ];
                customerLinks := {[1 := 0]};
                processedEventsMap := {["e1" := true]} |}).
Proof. vm_compute. reflexivity. Qed.

(** ** Records with a user id that does not parse *)

Lemma New_total rs : exists s, New rs = Done (ok s) /\ links_in_bounds s.
Proof. apply New_loop_in_bounds, links_in_bounds_empty. Qed.

Lemma New_loop_skip rs1 r rs2 s e :
  Atoi (stream.UserID r) = err e ->
  New_loop (rs1 ++ r :: rs2) s = New_loop (rs1 ++ rs2) s.
Proof.
  intros H. rewrite !New_loop_app.
  destruct (New_loop rs1 s) as [[s1|e1]|]; simpl; try done.
  by rewrite (New_body_invalid r s1 e H).
Qed.

(** C8.  A record whose user id does not parse leaves the registry
    (customers, index, applied record ids) as it is and the loop goes on
    with the next record: the ingestion of a sequence that contains it is
    the ingestion of the sequence without it.  No record makes an iteration
    of the loop return an error, in any registry state, and [New] returns a
    registry, without error, for every sequence of records. *)
Theorem invalid_userId_is_skipped
    (rs1 rs2 : list stream.Record_) (r : stream.Record_) (s : Datastore) (e : error) :
  Atoi (stream.UserID r) = err e ->
  New_body r s = Done (Next s)
  /\ New_loop (rs1 ++ r :: rs2) s = New_loop (rs1 ++ rs2) s
  /\ New (rs1 ++ r :: rs2) = New (rs1 ++ rs2)
  /\ (forall r' s' e', New_body r' s' <> Done (Return e'))
  /\ (forall rs, exists s', New rs = Done (ok s')).
Proof.
  intros H. split; [by apply (New_body_invalid r s e)|].
  split; [by apply (New_loop_skip rs1 r rs2 s e)|].
  split; [by apply (New_loop_skip rs1 r rs2 empty_store e)|].
  split; [apply New_body_no_Return|].
  intros rs. destruct (New_total rs) as (s' & Hs' & _). eauto.
Qed.

Lemma invalid_userId_is_skipped_witness :
  Atoi (stream.UserID bad_user) = err (ErrSyntax "12a")
  /\ New_body bad_user s_one = Done (Next s_one)
  /\ New ([ev1] ++ bad_user :: [at2]) = New ([ev1] ++ [at2]).
Proof.
  split; [reflexivity|].
  destruct (invalid_userId_is_skipped [ev1] [at2] bad_user s_one (ErrSyntax "12a") eq_refl)
    as (H1 & _ & H3 & _).
  exact (conj H1 H3).
Defined.

(** ** [Create] *)

Lemma I1_empty_store : I1 empty_store.
Proof.
  split.
  - intros i c. simpl. by rewrite lookup_nil.
  - intros id pos. simpl. by rewrite lookup_empty.
Qed.

Lemma registerCustomer_eq id attributes now s :
  registerCustomer id attributes now s =
    (ok (serve.mkCustomer id attributes ∅ now),
     {| customers := customers s ++ [serve.mkCustomer id attributes ∅ now];
        customerLinks := <[id := len (customers s)]> (customerLinks s);
        processedEventsMap := processedEventsMap s |}).
Proof.
  unfold registerCustomer, set_customerLinks, set_customers. simpl.
  rewrite range_assign_empty, len_app_one. do 3 f_equal. lia.
Qed.

Lemma Create_fresh id attributes now s :
  customerLinks s !! id = None ->
  Create id attributes now s =
    Done (ok (serve.mkCustomer id attributes ∅ now),
          {| customers := customers s ++ [serve.mkCustomer id attributes ∅ now];
             customerLinks := <[id := len (customers s)]> (customerLinks s);
             processedEventsMap := processedEventsMap s |}).
Proof. intros H. unfold Create. rewrite H. by rewrite registerCustomer_eq. Qed.

Lemma Create_present id attributes now s :
  is_Some (customerLinks s !! id) ->
  Create id attributes now s = Done (err ErrCustomerAlreadyExists, s).
Proof. intros [pos H]. unfold Create. by rewrite H. Qed.

(** Under I1 an id is in the index exactly when a customer with that id is
    stored. *)
Lemma I1_present s id :
  I1 s ->
  is_Some (customerLinks s !! id) <-> exists c, c ∈ customers s /\ serve.ID c = id.
Proof.
  intros [Hex Hso]. split.
  - intros [pos Hpos]. destruct (Hso id pos Hpos) as (c & [_ Hc]%index_Done & Hid).
    exists c. split; [|done]. apply list_elem_of_lookup. eauto.
  - intros (c & [i Hi]%list_elem_of_lookup & <-). rewrite (Hex i c Hi). eauto.
Qed.

Lemma Create_preserves_I1 id attributes now s v s' :
  I1 s -> Create id attributes now s = Done (v, s') -> I1 s'.
Proof.
  intros [Hex Hso] H.
  destruct (customerLinks s !! id) as [pos|] eqn:Hl.
  { rewrite Create_present in H by eauto. by injection H as <- <-. }
  rewrite Create_fresh in H by done. injection H as <- <-. split.
  - intros i c. simpl. intros Hi.
    destruct (decide (i < List.length (customers s))%nat) as [Hlt|Hge].
    + rewrite lookup_app_l in Hi by done. pose proof (Hex i c Hi) as Hc.
      rewrite lookup_insert_ne; [done|]. intros Heq. rewrite Heq in Hl. congruence.
    + pose proof (lookup_lt_Some _ _ _ Hi) as Hlen. rewrite length_app in Hlen.
      simpl in Hlen. assert (i = List.length (customers s)) as -> by lia.
      rewrite list_lookup_middle in Hi by done. injection Hi as <-. simpl.
      by rewrite lookup_insert_eq.
  - intros id' pos. simpl. rewrite lookup_insert. case_decide as E.
    + intros [= <-]. subst id'. exists (serve.mkCustomer id attributes ∅ now).
      split; [|reflexivity].
      apply index_Done. unfold len. rewrite Nat2Z.id. split; [lia|].
      by apply list_lookup_middle.
    + intros Hpos. destruct (Hso id' pos Hpos) as (c & [H0 Hc]%index_Done & Hid).
      exists c. split; [|done]. apply index_Done. split; [done|].
      by apply lookup_app_l_Some.
Qed.

(** [Create] and the index.  In every registry state,
    [Create id attributes] fails exactly when [id] has an index entry, the
    error is "customer already exists" and the failure leaves the registry
    unchanged; under the index invariant I1, and only under it, "has an
    index entry" is "a customer with that id is stored"
    ([Create_misjudges_presence_after_Delete] below is a registry where the
    two differ).  When [id] has no entry, [Create] appends a new customer
    that holds a copy of the supplied attributes, no events and the creation
    time, and registers [id] in the index at the new last position; a
    second [Create] of the same id then fails, as it does for
    [Create(5, {})] twice on the empty registry. *)
Theorem Create_collision
    (s : Datastore) (id : Z) (attributes : gmap string string) (now : Z) :
  (is_Some (customerLinks s !! id) <->
     Create id attributes now s = Done (err ErrCustomerAlreadyExists, s))
  /\ (forall e s', Create id attributes now s = Done (err e, s') ->
        e = ErrCustomerAlreadyExists /\ s' = s /\ is_Some (customerLinks s !! id))
  /\ (I1 s ->
        (Create id attributes now s = Done (err ErrCustomerAlreadyExists, s)
         <-> exists c, c ∈ customers s /\ serve.ID c = id))
  /\ (customerLinks s !! id = None ->
        exists s',
          Create id attributes now s = Done (ok (serve.mkCustomer id attributes ∅ now), s')
          /\ customers s' = customers s ++ [serve.mkCustomer id attributes ∅ now]
          /\ customerLinks s' = <[id := len (customers s)]> (customerLinks s)
          /\ processedEventsMap s' = processedEventsMap s
          /\ forall attributes' now',
               Create id attributes' now' s' = Done (err ErrCustomerAlreadyExists, s'))
  /\ (forall now1 now2,
        (r <~ Create 5 ∅ now1 empty_store ;; Create 5 ∅ now2 (snd r))
        = Done (err ErrCustomerAlreadyExists,
                {| customers := [serve.mkCustomer 5 ∅ ∅ now1];
                   customerLinks := {[5 := 0]};
                   processedEventsMap := ∅ |})).
Proof.
  assert (is_Some (customerLinks s !! id) <->
          Create id attributes now s = Done (err ErrCustomerAlreadyExists, s)) as Hiff.
  { split; [apply Create_present|].
    destruct (customerLinks s !! id) eqn:Hl; [eauto|].
    rewrite Create_fresh by done. discriminate. }
  split; [exact Hiff|]. split; [|split; [|split]].
  - intros e s' H. destruct (customerLinks s !! id) as [pos|] eqn:Hl.
    + rewrite Create_present in H by eauto. injection H as <- <-. eauto.
    + rewrite Create_fresh in H by done. discriminate.
  - intros HI. rewrite <- Hiff. by apply I1_present.
  - intros Hl. eexists. split; [by apply Create_fresh|]. simpl.
    repeat split. intros attributes' now'. apply Create_present. simpl.
    rewrite lookup_insert_eq. eauto.
  - intros now1 now2. reflexivity.
Qed.

Lemma Create_collision_witness :
  I1 empty_store
  /\ customerLinks empty_store !! 5 = None
  /\ (Create 5 ∅ 0 empty_store = Done (err ErrCustomerAlreadyExists, empty_store)
      <-> exists c, c ∈ customers empty_store /\ serve.ID c = 5)
  /\ exists s',
       Create 5 ∅ 0 empty_store = Done (ok (serve.mkCustomer 5 ∅ ∅ 0), s')
       /\ Create 5 ∅ 0 s' = Done (err ErrCustomerAlreadyExists, s').
Proof.
  destruct (Create_collision empty_store 5 ∅ 0) as (_ & _ & H3 & H4 & _).
  split; [exact I1_empty_store|]. split; [reflexivity|].
  split; [exact (H3 I1_empty_store)|].
  destruct (H4 eq_refl) as (s' & Hc & _ & _ & _ & Hagain).
  exists s'. split; [exact Hc | exact (Hagain ∅ 0)].
Defined.

(** ** I1 during ingestion and lookup *)

(** I1 is a property of the ids in the slice and of the index alone. *)
Lemma I1_ext s s' :
  serve.ID <$> customers s' = serve.ID <$> customers s ->
  customerLinks s' = customerLinks s ->
  I1 s -> I1 s'.
Proof.
  intros Hids Hl [Hex Hso]. split.
  - intros i c' Hi. rewrite Hl.
    assert ((serve.ID <$> customers s) !! i = Some (serve.ID c')) as H.
    { rewrite <- Hids, list_lookup_fmap, Hi. done. }
    apply list_lookup_fmap_Some_1 in H as (c & Hc & Hi0). rewrite Hc. by apply Hex.
  - intros id pos. rewrite Hl. intros Hpos.
    destruct (Hso id pos Hpos) as (c & [H0 Hc]%index_Done & Hid).
    assert ((serve.ID <$> customers s') !! Z.to_nat pos = Some id) as H.
    { rewrite Hids, list_lookup_fmap, Hc. simpl. by rewrite Hid. }
    apply list_lookup_fmap_Some_1 in H as (c' & Hc' & Hi').
    exists c'. split; [by apply index_Done|done].
Qed.

Lemma store_customer_ids s pos c0 c1 :
  index (customers s) pos = Done c0 ->
  serve.ID c1 = serve.ID c0 ->
  serve.ID <$> customers (store_customer pos c1 s) = serve.ID <$> customers s.
Proof.
  intros [_ Hc]%index_Done Hid. simpl. rewrite list_fmap_insert.
  apply list_insert_id. rewrite list_lookup_fmap, Hc. simpl. by rewrite Hid.
Qed.

Lemma processRecord_frame r s e s' :
  processRecord r s = Done (e, s') ->
  customerLinks s' = customerLinks s
  /\ serve.ID <$> customers s' = serve.ID <$> customers s.
Proof.
  intros H. unfold processRecord in H.
  destruct (Atoi (stream.UserID r)) as [id|e0]; [|by injection H as <- <-].
  destruct (index (customers s) _) as [c0|] eqn:Hc; simpl in H; [|discriminate].
  repeat (case_decide || case_match); injection H as <- <-; (split; [done|]);
    try done;
    try (apply (store_customer_ids _ _ c0); [exact Hc|]);
    try (apply (store_customer_ids (set_processedEventsMap _ s) _ c0); [exact Hc|]);
    by rewrite raise_LastUpdated_ID.
Qed.

Lemma New_body_preserves_I1 r s s' :
  I1 s -> New_body r s = Done (Next s') -> I1 s'.
Proof.
  intros HI H. unfold New_body, isUserRegistered in H.
  destruct (Atoi (stream.UserID r)) as [id|e0] eqn:Hid; [|by injection H as <-].
  destruct (customerLinks s !! id) eqn:Hl.
  - destruct (processRecord r s) as [[[e|] s2]|] eqn:E; simpl in H; try discriminate.
    injection H as <-. destruct (processRecord_frame _ _ _ _ E) as [Hl2 Hids].
    by apply (I1_ext s).
  - destruct (processRecord r _) as [[[e|] s2]|] eqn:E; simpl in H; try discriminate.
    injection H as <-. destruct (processRecord_frame _ _ _ _ E) as [Hl2 Hids].
    eapply I1_ext; [exact Hids|exact Hl2|].
    rewrite (registerCustomerFromRecord_ok r s id Hid). simpl.
    eapply (Create_preserves_I1 id ∅ (stream.Timestamp r) s); [exact HI|].
    by apply Create_fresh.
Qed.

(** The registry that [New] returns satisfies I1. *)
Lemma New_I1 rs s : New rs = Done (ok s) -> I1 s.
Proof.
  unfold New. generalize I1_empty_store. generalize empty_store.
  induction rs as [|r rs IH]; intros s0 HI; simpl.
  - by intros [= <-].
  - destruct (New_body r s0) as [[s1|e]|] eqn:E; simpl; try discriminate.
    apply IH. by eapply New_body_preserves_I1.
Qed.

(** Under I1 a lookup is safe and exact: [Get] returns the stored customer
    with the id asked for, or "customer not found" when none is stored. *)
Lemma Get_under_I1 s id :
  I1 s ->
  (exists c, Get id s = Done (ok c, s) /\ serve.ID c = id /\ c ∈ customers s)
  \/ (Get id s = Done (err ErrCustomerNotFound, s)
      /\ forall c, c ∈ customers s -> serve.ID c <> id).
Proof.
  intros HI. pose proof HI as [Hex Hso]. unfold Get.
  destruct (customerLinks s !! id) as [pos|] eqn:Hl.
  - left. destruct (Hso id pos Hl) as (c & Hc & Hid). exists c. rewrite Hc.
    split; [done|]. split; [done|]. apply index_Done in Hc as [_ Hc].
    apply list_elem_of_lookup. eauto.
  - right. split; [done|]. intros c Hc Hid.
    assert (is_Some (customerLinks s !! id)) as [? ?] by (apply I1_present; eauto).
    congruence.
Qed.

(** ** [List] *)

(** C10.  [List(page, count)] succeeds for every registry and every [page]
    and [count], returns the stored customers in storage order, all of them
    and each once (the element at every position is the customer stored at
    that position), leaves the registry as it is, and returns the same for
    any other [page] and [count]. *)
Theorem List_ignores_pagination (s : Datastore) (page count : Z) :
  List page count s = Done (ok (customers s), s)
  /\ (forall page' count', List page' count' s = List page count s)
  /\ (exists l,
        List page count s = Done (ok l, s)
        /\ List.length l = List.length (customers s)
        /\ forall i : nat, l !! i = customers s !! i).
Proof.
  split; [reflexivity|]. split; [reflexivity|].
  exists (customers s). auto.
Qed.

(** ** [Delete] and the repair of the index *)

(** The repair loop, step by step. *)
Lemma fixLinks_loop_step cs i j links :
  fixLinks_loop cs i j links =
    if decide (i < j) then
      ci <~ index cs i ;;
      cj <~ index cs j ;;
      fixLinks_loop cs (i + 1) (j - 1)
        (<[serve.ID cj := j]> (<[serve.ID ci := i]> links))
    else Done links.
Proof.
  rewrite fixLinks_loop_equation_1.
  destruct (decide (i < j)); simpl; [|done].
  destruct (index cs i); simpl; [|done]. by destruct (index cs j).
Qed.

(** I1 entails I2. *)
Lemma index_exact_unique s : index_exact s -> unique_ids (customers s).
Proof.
  intros Hex i j c c' Hi Hj Hid.
  pose proof (Hex i c Hi) as H1. pose proof (Hex j c' Hj) as H2.
  rewrite Hid in H1. rewrite H1 in H2. injection H2. lia.
Qed.

(** On a slice with distinct ids, and cursors within it, the loop does not
    panic; it sets the entry of every visited position, leaves every other
    id as it was, and adds no entry but those. *)
Lemma fixLinks_loop_spec cs :
  unique_ids cs ->
  forall (m : nat) (i j : Z) (links : gmap Z Z),
    j - i < Z.of_nat m -> 0 <= i -> j < len cs ->
    exists links',
      fixLinks_loop cs i j links = Done links'
      /\ (forall k c, cs !! k = Some c -> visited i j k ->
            links' !! serve.ID c = Some (Z.of_nat k))
      /\ (forall id,
            (forall k c, cs !! k = Some c -> visited i j k -> serve.ID c <> id) ->
            links' !! id = links !! id)
      /\ (forall id q, links' !! id = Some q ->
            links !! id = Some q
            \/ exists k c, cs !! k = Some c /\ visited i j k
                           /\ serve.ID c = id /\ q = Z.of_nat k).
Proof.
  intros Hu m. induction m as [|m IH]; intros i j links Hm Hi Hj;
    rewrite fixLinks_loop_step.
  - rewrite decide_False by lia. exists links. split; [done|].
    split; [intros k c _ [? ?]; lia|]. split; [done|].
    intros id q Hq. by left.
  - destruct (decide (i < j)) as [Hlt|Hge].
    2:{ exists links. split; [done|].
        split; [intros k c _ [? ?]; lia|]. split; [done|].
    intros id q Hq. by left. }
    destruct (index_in_bounds cs i) as [ci Hci]; [lia|].
    destruct (index_in_bounds cs j) as [cj Hcj]; [lia|].
    rewrite Hci, Hcj. simpl.
    apply index_Done in Hci as [_ Hci]. apply index_Done in Hcj as [_ Hcj].
    assert (serve.ID cj <> serve.ID ci) as Hne.
    { intros E. pose proof (Hu _ _ _ _ Hcj Hci E). lia. }
    destruct (IH (i + 1) (j - 1)
                (<[serve.ID cj := j]> (<[serve.ID ci := i]> links)))
      as (links' & -> & H2 & H3 & H4); [lia..|].
    exists links'. split; [done|]. split; [|split].
    + intros k c Hk [Hr Hmid].
      destruct (decide (Z.of_nat k = i)) as [Eki|Nki].
      { assert (k = Z.to_nat i) as -> by lia. rewrite Hci in Hk. injection Hk as <-.
        rewrite H3.
        - rewrite lookup_insert_ne by done. rewrite lookup_insert_eq. f_equal. lia.
        - intros k' c' Hk' [Hr' _] E. pose proof (Hu _ _ _ _ Hk' Hci E). lia. }
      destruct (decide (Z.of_nat k = j)) as [Ekj|Nkj].
      { assert (k = Z.to_nat j) as -> by lia. rewrite Hcj in Hk. injection Hk as <-.
        rewrite H3.
        - rewrite lookup_insert_eq. f_equal. lia.
        - intros k' c' Hk' [Hr' _] E. pose proof (Hu _ _ _ _ Hk' Hcj E). lia. }
      apply (H2 k c Hk). split; lia.
    + intros id Hid. rewrite H3.
      * rewrite lookup_insert_ne.
        2:{ apply (Hid (Z.to_nat j) cj Hcj). split; lia. }
        rewrite lookup_insert_ne; [done|].
        apply (Hid (Z.to_nat i) ci Hci). split; lia.
      * intros k c Hk [Hr Hmid]. apply (Hid k c Hk). split; lia.
    + intros id q Hq. destruct (H4 id q Hq) as [Hq1|(k & c & Hk & [Hr Hmid] & Hid & ->)].
      * rewrite lookup_insert in Hq1. case_decide as E1.
        { injection Hq1 as <-. right. exists (Z.to_nat j), cj.
          split; [done|]. split; [split; lia|]. split; [done|lia]. }
        rewrite lookup_insert in Hq1. case_decide as E2.
        { injection Hq1 as <-. right. exists (Z.to_nat i), ci.
          split; [done|]. split; [split; lia|]. split; [done|lia]. }
        by left.
      * right. exists k, c. split; [done|]. split; [split; lia|]. done.
Qed.

(** [Delete] on a registry that satisfies I1.  It succeeds, and I1 holds
    again afterwards exactly when the customer moved into the vacated slot
    does not land on the middle position of a slice of odd length: with
    [n] customers before the call, unless [pos] is not the last position
    and [2 * pos = n - 2]. *)
Lemma Delete_under_I1 s id pos :
  I1 s ->
  customerLinks s !! id = Some pos ->
  exists s',
    Delete id s = Done (None, s')
    /\ processedEventsMap s' = processedEventsMap s
    /\ len (customers s') = len (customers s) - 1
    /\ (I1 s' <-> ~ (pos < len (customers s) - 1 /\ 2 * pos = len (customers s) - 2)).
Proof.
  intros [Hex Hso] Hl.
  pose proof (index_exact_unique s Hex) as Hu.
  destruct (Hso id pos Hl) as (c0 & Hc0 & Hid0).
  pose proof (index_Done_bounds _ _ _ Hc0) as Hb.
  apply index_Done in Hc0 as [_ Hc0].
  destruct (index_in_bounds (customers s) (len (customers s) - 1)) as [cl Hcl]; [lia|].
  unfold Delete. rewrite Hl. simpl. rewrite Hcl. simpl.
  unfold set_index. rewrite decide_True by lia. simpl.
  apply index_Done in Hcl as [_ Hcl].
  rewrite len_insert.
  set (n := List.length (customers s)) in *.
  set (p := Z.to_nat pos) in *.
  assert (len (customers s) = Z.of_nat n) as Hn by done.
  rewrite Hn in *.
  replace (Z.to_nat (Z.of_nat n - 1)) with (n - 1)%nat in * by lia.
  set (cs' := take (n - 1) (<[p := cl]> (customers s))).
  set (sigma := fun k : nat => if decide (k = p) then (n - 1)%nat else k).
  assert (forall k c, cs' !! k = Some c <->
                      (k < n - 1)%nat /\ customers s !! sigma k = Some c) as Hlk.
  { intros k c. unfold cs', sigma. rewrite lookup_take_Some, list_lookup_insert_Some.
    case_decide as E.
    - subst k. split.
      + intros [[(_ & <- & _)|[? _]] ?]; [|done]. done.
      + intros [? Hk]. rewrite Hcl in Hk. injection Hk as <-.
        split; [|done]. left. split; [done|]. split; [done|]. unfold p. lia.
    - split.
      + intros [[(? & _)|[_ ?]] ?]; [congruence|done].
      + intros [? ?]. split; [|done]. right. split; [congruence|done]. }
  assert (len cs' = Z.of_nat n - 1) as Hlen'.
  { unfold len, cs'. rewrite length_take, length_insert. fold n. lia. }
  assert (forall k k', (k < n - 1)%nat -> (k' < n - 1)%nat ->
                       sigma k = sigma k' -> k = k') as Hinj.
  { intros k k' ? ?. unfold sigma. repeat case_decide; lia. }
  assert (forall k, (k < n - 1)%nat -> sigma k <> p) as Hsp.
  { intros k ?. unfold sigma. case_decide; unfold p in *; lia. }
  assert (unique_ids cs') as Hu'.
  { intros k k' c c' [? Hk]%Hlk [? Hk']%Hlk E. apply Hinj; try done.
    by apply (Hu _ _ _ _ Hk Hk'). }
  destruct (fixLinks_loop_spec cs' Hu' n 0 (len cs' - 1) (delete id (customerLinks s)))
    as (links' & Hloop & H2 & H3 & H4); [lia..|].
  unfold fixLinks. simpl. rewrite Hloop. simpl.
  eexists. split; [reflexivity|]. simpl. split; [done|]. split; [done|].
  (* the index before the repair, on the stored ids *)
  assert (forall k c, cs' !! k = Some c ->
            delete id (customerLinks s) !! serve.ID c = Some (Z.of_nat (sigma k))) as H0.
  { intros k c [Hk Hc]%Hlk. rewrite lookup_delete_ne; [by apply Hex|].
    intros E. rewrite <- Hid0 in E. pose proof (Hu _ _ _ _ Hc0 Hc E) as E'.
    by apply (Hsp k). }
  assert (forall k c, cs' !! k = Some c -> ~ visited 0 (len cs' - 1) k ->
            links' !! serve.ID c = Some (Z.of_nat (sigma k))) as Hmid.
  { intros k c Hk Hnv. rewrite H3; [by apply H0|].
    intros k' c' Hk' Hv E. assert (k' = k) as -> by (by apply (Hu' _ _ _ _ Hk' Hk)).
    done. }
  assert (index_exact (mkDatastore cs' links' (processedEventsMap s)) <->
          ~ (pos < Z.of_nat n - 1 /\ 2 * pos = Z.of_nat n - 2)) as Hiff.
  { split.
    - intros Hex' [Hp1 Hp2].
      destruct (lookup_lt_is_Some_2 cs' p) as [c Hc].
      { unfold len in Hlen'. unfold p. lia. }
      pose proof (Hex' p c Hc) as E. simpl in E.
      rewrite (Hmid p c Hc) in E.
      + injection E. unfold sigma. rewrite decide_True by done. unfold p. lia.
      + intros [_ Hv]. unfold p in Hv. lia.
    - intros Hcond k c Hk. simpl in *.
      destruct (decide (2 * Z.of_nat k = len cs' - 1)) as [Em|Nm].
      + rewrite (Hmid k c Hk); [|intros [_ Hv]; lia].
        f_equal. unfold sigma. case_decide; [|done]. subst k. unfold p in *. lia.
      + apply (H2 k c Hk). apply Hlk in Hk as [? _]. split; lia. }
  split.
  - intros [Hex' _]. by apply Hiff.
  - intros Hcond. apply Hiff in Hcond as Hex'. split; [done|].
    intros id' q Hq. simpl in *.
    assert (exists k c, cs' !! k = Some c /\ serve.ID c = id') as (k & c & Hk & Hidk).
    { destruct (H4 id' q Hq) as [Hq0|(k & c & Hk & _ & Hidk & _)]; [|eauto].
      rewrite lookup_delete_Some in Hq0. destruct Hq0 as [Hne Hq0].
      destruct (Hso id' q Hq0) as (c & [Hq1 Hc]%index_Done & Hidc).
      pose proof (lookup_lt_Some _ _ _ Hc) as Hlt. fold n in Hlt.
      assert (Z.to_nat q <> p) as Hqp.
      { intros E. rewrite E, Hc0 in Hc. injection Hc as <-. congruence. }
      destruct (decide (Z.to_nat q = n - 1)%nat) as [El|Nl].
      - exists p, c. split; [|done]. apply Hlk. unfold sigma.
        rewrite decide_True by done. rewrite <- El. split; [|done].
        pose proof (lookup_lt_Some _ _ _ Hc0). fold n in H. fold p in H. lia.
      - exists (Z.to_nat q), c. split; [|done]. apply Hlk. unfold sigma.
        rewrite decide_False by done. split; [lia|done]. }
    pose proof (Hex' k c Hk) as E. simpl in E. rewrite Hidk, Hq in E.
    injection E as ->. exists c. split; [|done]. by apply index_of_nat.
Qed.

(** C1 does not hold of the code.  From the empty registry (where I1
    holds), [Create(1)], [Create(2)], [Delete(1)] succeed and leave customer
    2 at position 0 with an index entry that still says 1: the repair loop
    of [fixLinks] runs [for i < j] from the two ends and never visits the
    single element of a slice of length one (nor the middle one of any slice
    of odd length). *)
Theorem Delete_breaks_I1 :
  I1 empty_store
  /\ forallb is_create_or_delete create_create_delete = true
  /\ run_ops create_create_delete empty_store = Done s_stale
  /\ customers s_stale !! 0%nat = Some (serve.mkCustomer 2 ∅ ∅ 200)
  /\ customerLinks s_stale !! 2 = Some 1
  /\ ~ index_exact s_stale.
Proof.
  split; [exact I1_empty_store|]. split; [reflexivity|].
  split; [vm_compute; reflexivity|]. split; [reflexivity|]. split; [reflexivity|].
  intros H. specialize (H 0%nat (serve.mkCustomer 2 ∅ ∅ 200) eq_refl).
  vm_compute in H. discriminate.
Qed.

(** C2 does not hold of the code.  In the registry reached by [Create(1)],
    [Create(2)], [Delete(1)], the id 2 is present in the index, its stale
    entry 1 is outside the slice of length 1, and [Get(2)] panics on
    [ds.customers[pos]]; so do [Update(2)] and [Delete(2)]. *)
Theorem Get_panics_on_stale_entry :
  run_ops create_create_delete empty_store = Done s_stale
  /\ customerLinks s_stale !! 2 = Some 1
  /\ len (customers s_stale) = 1
  /\ Get 2 s_stale = Panic
  /\ Update 2 ∅ 300 s_stale = Panic
  /\ Delete 2 s_stale = Panic.
Proof. repeat split; vm_compute; reflexivity. Qed.

(** C9 does not hold of the code.  [Create(1)], [Create(2)], [Delete(1)],
    [Create(3)], [Delete(2)] on the empty registry all succeed and leave
    customer 2 stored at position 0 with no index entry, and an index entry
    for 3 with no customer: the first [Delete] leaves the entry of 2 at 1
    (the skipped middle position of [fixLinks]), so the second [Delete]
    truncates customer 3 away and removes the entry of 2.  In that registry
    [Create(2, {})] succeeds although a customer with id 2 is stored, and
    stores a second one; and [Create(3, {})] fails with "customer already
    exists" although no customer with id 3 is stored. *)
Theorem Create_misjudges_presence_after_Delete :
  forallb is_create_or_delete create_delete_create_delete = true
  /\ run_ops create_delete_create_delete empty_store = Done s_lost
  /\ serve.mkCustomer 2 ∅ ∅ 200 ∈ customers s_lost
  /\ (exists s',
        Create 2 ∅ 400 s_lost = Done (ok (serve.mkCustomer 2 ∅ ∅ 400), s')
        /\ customers s' = [serve.mkCustomer 2 ∅ ∅ 200; serve.mkCustomer 2 ∅ ∅ 400])
  /\ (forall c, c ∈ customers s_lost -> serve.ID c <> 3)
  /\ Create 3 ∅ 400 s_lost = Done (err ErrCustomerAlreadyExists, s_lost).
Proof.
  split; [reflexivity|]. split; [vm_compute; reflexivity|].
  split; [apply list_elem_of_singleton; reflexivity|]. split.
  - eexists. split; [vm_compute; reflexivity|]. reflexivity.
  - split.
    + intros c Hc. simpl in Hc. apply list_elem_of_singleton in Hc. subst c.
      simpl. discriminate.
    + vm_compute. reflexivity.
Qed.

(** What a stale entry goes on to do once the slice has grown again: after
    four creations, [Delete(2)] moves customer 4 to the unvisited middle
    position 1 and leaves its entry at 3; [Create(5)] then stores customer 5
    at position 3, so [Get(4)] returns customer 5; [Delete(4)] removes
    customer 5 from the slice and the entry of 4 from the index, leaving
    customer 4 stored without an entry and the entry of 5 dangling; and
    [Create(4)] succeeds and stores a second customer with id 4. *)
Lemma stale_entry_consequences :
  exists s1 s2 s3,
    run_ops four_delete_create empty_store = Done s1
    /\ serve.ID <$> customers s1 = [1; 4; 3; 5]
    /\ Get 4 s1 = Done (ok (serve.mkCustomer 5 ∅ ∅ 500), s1)
    /\ Delete 4 s1 = Done (None, s2)
    /\ serve.ID <$> customers s2 = [1; 4; 3]
    /\ customerLinks s2 !! 4 = None
    /\ customerLinks s2 !! 5 = Some 3
    /\ Create 4 ∅ 600 s2 = Done (ok (serve.mkCustomer 4 ∅ ∅ 600), s3)
    /\ serve.ID <$> customers s3 = [1; 4; 3; 4].
Proof.
  do 3 eexists.
  split; [vm_compute; reflexivity|]. split; [reflexivity|].
  split; [vm_compute; reflexivity|]. split; [vm_compute; reflexivity|].
  split; [reflexivity|]. split; [vm_compute; reflexivity|].
  split; [vm_compute; reflexivity|]. split; [vm_compute; reflexivity|].
  reflexivity.
Qed.

(** * Further properties of the datastore *)

(** ** [fixLinks] *)

Lemma fixLinks_loop_total cs :
  forall (m : nat) (i j : Z) (links : gmap Z Z),
    j - i < Z.of_nat m -> 0 <= i -> j < len cs ->
    exists links',
      fixLinks_loop cs i j links = Done links'
      /\ (forall id, is_Some (links !! id) -> is_Some (links' !! id))
      /\ ((forall (k : nat) c, cs !! k = Some c ->
             links !! serve.ID c = Some (Z.of_nat k)) ->
          links' = links).
Proof.
  intros m. induction m as [|m IH]; intros i j links Hm Hi Hj;
    rewrite fixLinks_loop_step.
  - rewrite decide_False by lia. eauto.
  - destruct (decide (i < j)) as [Hlt|Hge]; [|eauto].
    destruct (index_in_bounds cs i) as [ci Hci]; [lia|].
    destruct (index_in_bounds cs j) as [cj Hcj]; [lia|].
    rewrite Hci, Hcj. simpl.
    apply index_Done in Hci as [_ Hci]. apply index_Done in Hcj as [_ Hcj].
    destruct (IH (i + 1) (j - 1)
                (<[serve.ID cj := j]> (<[serve.ID ci := i]> links)))
      as (links' & -> & Hdom & Hex); [lia..|].
    exists links'. split; [done|]. split.
    + intros id Hid. apply Hdom. rewrite !lookup_insert.
      repeat case_decide; eauto.
    + intros Hexact.
      assert (<[serve.ID cj := j]> (<[serve.ID ci := i]> links) = links) as E.
      { rewrite (insert_id links (serve.ID ci) i).
        - apply insert_id. rewrite (Hexact _ _ Hcj). f_equal. lia.
        - rewrite (Hexact _ _ Hci). f_equal. lia. }
      rewrite E in Hex. by apply Hex.
Qed.

(** X1.  [fixLinks] never panics and never returns an error, whatever the
    registry: it leaves the customers and the processed events as they are,
    removes no entry of the index, and on a registry whose index is exact it
    changes nothing at all. *)
Theorem fixLinks_always_succeeds (s : Datastore) :
  exists links',
    fixLinks s = Done (None, set_customerLinks links' s)
    /\ (forall id, is_Some (customerLinks s !! id) -> is_Some (links' !! id))
    /\ (index_exact s -> fixLinks s = Done (None, s)).
Proof.
  destruct (fixLinks_loop_total (customers s) (List.length (customers s)) 0
              (len (customers s) - 1) (customerLinks s))
    as (links' & Hloop & Hdom & Hex); [unfold len; lia..|].
  exists links'. unfold fixLinks. rewrite Hloop. simpl.
  split; [done|]. split; [done|].
  intros Hexact. rewrite (Hex Hexact). by destruct s.
Qed.

(** ** Panics and errors of the lookups *)

Lemma index_Panic {A : Type} (l : list A) (i : Z) :
  index l i = Panic <-> ~ (0 <= i < len l).
Proof.
  split.
  - intros H Hb. destruct (index_in_bounds l i Hb) as [x Hx]. congruence.
  - intros Hb. destruct (index l i) as [x|] eqn:E; [|done].
    apply index_Done_bounds in E. contradiction.
Qed.

Lemma Delete_in_bounds s id pos :
  customerLinks s !! id = Some pos ->
  0 <= pos < len (customers s) ->
  exists cl links',
    customers s !! (List.length (customers s) - 1)%nat = Some cl
    /\ fixLinks_loop
         (take (List.length (customers s) - 1) (<[Z.to_nat pos := cl]> (customers s)))
         0 (len (customers s) - 2) (delete id (customerLinks s)) = Done links'
    /\ Delete id s =
         Done (None,
               {| customers :=
                    take (List.length (customers s) - 1)
                      (<[Z.to_nat pos := cl]> (customers s));
                  customerLinks := links';
                  processedEventsMap := processedEventsMap s |}).
Proof.
  intros Hl Hb.
  destruct (index_in_bounds (customers s) (len (customers s) - 1)) as [cl Hcl]; [lia|].
  unfold Delete. rewrite Hl. simpl. rewrite Hcl. simpl.
  unfold set_index. rewrite decide_True by lia. simpl.
  apply index_Done in Hcl as [_ Hcl].
  rewrite len_insert.
  set (n := List.length (customers s)) in *.
  assert (len (customers s) = Z.of_nat n) as Hn by done.
  rewrite Hn in *.
  replace (Z.to_nat (Z.of_nat n - 1)) with (n - 1)%nat in * by lia.
  set (cs' := take (n - 1) (<[Z.to_nat pos := cl]> (customers s))).
  assert (len cs' = Z.of_nat n - 1) as Hlen'.
  { unfold len, cs'. rewrite length_take, length_insert. fold n. lia. }
  destruct (fixLinks_loop_total cs' n 0 (len cs' - 1) (delete id (customerLinks s)))
    as (links' & Hloop & _); [lia..|].
  exists cl, links'. split; [done|].
  unfold fixLinks. simpl. fold cs'. rewrite Hloop. simpl.
  split; [|done]. rewrite <- Hloop. f_equal. lia.
Qed.

Lemma entry_out_of_bounds_panics s id pos attributes now :
  customerLinks s !! id = Some pos ->
  ~ (0 <= pos < len (customers s)) ->
  Get id s = Panic
  /\ Update id attributes now s = Panic
  /\ Delete id s = Panic.
Proof.
  intros Hl Hb. apply index_Panic in Hb as Hp.
  unfold Get, Update, Delete. rewrite Hl, Hp. simpl.
  split; [done|]. split; [done|].
  destruct (index (customers s) (len (customers s) - 1)); simpl; [|done].
  unfold set_index. by rewrite decide_False.
Qed.

(** X2.  The three lookups through the index panic in exactly one
    situation: [Get(id)], [Update(id, ...)] and [Delete(id)] panic if and
    only if the index has an entry for [id] that lies outside the slice of
    customers. *)
Theorem lookups_panic_iff_entry_out_of_bounds
    (s : Datastore) (id : Z) (attributes : gmap string string) (now : Z) :
  let out_of_bounds :=
    exists pos, customerLinks s !! id = Some pos
                /\ ~ (0 <= pos < len (customers s)) in
  (Get id s = Panic <-> out_of_bounds)
  /\ (Update id attributes now s = Panic <-> out_of_bounds)
  /\ (Delete id s = Panic <-> out_of_bounds).
Proof.
  simpl.
  assert ((exists pos, customerLinks s !! id = Some pos
                       /\ ~ (0 <= pos < len (customers s))) ->
          Get id s = Panic /\ Update id attributes now s = Panic
          /\ Delete id s = Panic) as Hback.
  { intros (pos & Hl & Hb). by apply (entry_out_of_bounds_panics s id pos). }
  split; [|split]; (split; [|intros H; by apply Hback in H as (? & ? & ?)]).
  - unfold Get. destruct (customerLinks s !! id) as [pos|] eqn:Hl; [|discriminate].
    destruct (index (customers s) pos) as [c|] eqn:Hc; simpl; [discriminate|].
    intros _. exists pos. split; [done|]. by apply index_Panic.
  - unfold Update. destruct (customerLinks s !! id) as [pos|] eqn:Hl; [|discriminate].
    destruct (index (customers s) pos) as [c|] eqn:Hc; simpl; [discriminate|].
    intros _. exists pos. split; [done|]. by apply index_Panic.
  - destruct (customerLinks s !! id) as [pos|] eqn:Hl.
    + destruct (decide (0 <= pos < len (customers s))) as [Hb|Hb]; [|eauto].
      destruct (Delete_in_bounds s id pos Hl Hb) as (cl & links' & _ & _ & ->).
      discriminate.
    + unfold Delete. rewrite Hl. discriminate.
Qed.

(** X3.  A call that fails leaves the registry as it was.  [Get] never
    changes the registry; the only error of [Get] and [Delete] is "customer
    not found" and the only error of [Update] is "customer does not exist";
    each is returned exactly when the index has no entry for the id, and
    then with the registry unchanged. *)
Theorem failed_calls_change_nothing
    (s : Datastore) (id : Z) (attributes : gmap string string) (now : Z) :
  (forall r s', Get id s = Done (r, s') -> s' = s)
  /\ (customerLinks s !! id = None <-> Get id s = Done (err ErrCustomerNotFound, s))
  /\ (customerLinks s !! id = None <->
      Update id attributes now s = Done (err ErrCustomerDoesNotExist, s))
  /\ (customerLinks s !! id = None <-> Delete id s = Done (Some ErrCustomerNotFound, s))
  /\ (forall e s', Get id s = Done (err e, s') -> e = ErrCustomerNotFound)
  /\ (forall e s', Update id attributes now s = Done (err e, s') ->
        e = ErrCustomerDoesNotExist /\ s' = s)
  /\ (forall e s', Delete id s = Done (Some e, s') ->
        e = ErrCustomerNotFound /\ s' = s).
Proof.
  unfold Get, Update. destruct (customerLinks s !! id) as [pos|] eqn:Hl.
  - split; [|split; [|split; [|split; [|split; [|split]]]]].
    + intros r s'. destruct (index _ _); simpl; [|discriminate]. by intros [= <- <-].
    + split; [discriminate|]. destruct (index _ _); discriminate.
    + split; [discriminate|]. destruct (index _ _); discriminate.
    + split; [discriminate|]. unfold Delete. rewrite Hl.
      destruct (index _ _); simpl; [|discriminate].
      destruct (set_index _ _ _); simpl; [|discriminate].
      intros H. apply fixLinks_frame in H as [? _]. discriminate.
    + intros e s'. destruct (index _ _); discriminate.
    + intros e s'. destruct (index _ _); discriminate.
    + intros e s'. unfold Delete. rewrite Hl.
      destruct (index _ _); simpl; [|discriminate].
      destruct (set_index _ _ _); simpl; [|discriminate].
      intros H. apply fixLinks_frame in H as [? _]. discriminate.
  - unfold Delete. rewrite Hl.
    repeat split; try done; intros; congruence.
Qed.

(** ** [Create], [Update] and [Get] together *)

(** X4.  A successful [Create] is found again and disturbs nothing else:
    when [id] has no index entry, [Create(id, attributes)] stores a customer
    with that id, exactly the supplied attributes, no events and the
    creation time; [Get(id)] then returns it; the count grows by one; and
    [Get] of any other id returns what it returned before. *)
Theorem Create_then_Get
    (s : Datastore) (id : Z) (attributes : gmap string string) (now : Z) :
  customerLinks s !! id = None ->
  exists c s',
    Create id attributes now s = Done (ok c, s')
    /\ c = serve.mkCustomer id attributes ∅ now
    /\ Get id s' = Done (ok c, s')
    /\ TotalCustomers s' = Done (ok (len (customers s) + 1), s')
    /\ processedEventsMap s' = processedEventsMap s
    /\ (forall id' r, id' <> id -> Get id' s = Done (r, s) -> Get id' s' = Done (r, s')).
Proof.
  intros Hl. eexists _, _. split; [by apply Create_fresh|]. split; [done|].
  split; [|split; [|split]].
  - apply (Get_resolved _ id (len (customers s))); simpl.
    + by rewrite lookup_insert_eq.
    + apply index_Done. unfold len. rewrite Nat2Z.id. split; [lia|].
      by apply list_lookup_middle.
  - unfold TotalCustomers. simpl. by rewrite len_app_one.
  - done.
  - intros id' r Hne. unfold Get. simpl. rewrite lookup_insert_ne by done.
    destruct (customerLinks s !! id') as [pos|]; [|by intros [= <-]].
    destruct (index (customers s) pos) as [c|] eqn:Hc; simpl; [|discriminate].
    intros [= <-]. apply index_Done in Hc as [H0 Hc].
    assert (index (customers s ++ [serve.mkCustomer id attributes ∅ now]) pos = Done c) as ->.
    { apply index_Done. split; [done|]. by apply lookup_app_l_Some. }
    done.
Qed.

Lemma Create_then_Get_witness :
  exists c s',
    Create 7 {["plan" := "pro"]} 50 s_one = Done (ok c, s')
    /\ c = serve.mkCustomer 7 {["plan" := "pro"]} ∅ 50
    /\ Get 7 s' = Done (ok c, s')
    /\ TotalCustomers s' = Done (ok (len (customers s_one) + 1), s')
    /\ processedEventsMap s' = processedEventsMap s_one
    /\ (forall id' r, id' <> 7 -> Get id' s_one = Done (r, s_one) -> Get id' s' = Done (r, s')).
Proof. apply (Create_then_Get s_one 7 {["plan" := "pro"]} 50). reflexivity. Defined.

Lemma Update_resolved s id pos c attributes now :
  customerLinks s !! id = Some pos ->
  index (customers s) pos = Done c ->
  Update id attributes now s =
    Done (ok (update_customer attributes now c),
          store_customer pos (update_customer attributes now c) s).
Proof. intros Hl Hc. unfold Update. by rewrite Hl, Hc. Qed.

(** X5.  [Update] merges by key and touches one customer only.  When the
    index entry of [id] resolves to a customer [c], [Update(id, attributes)]
    succeeds; the customer it returns, which [Get(id)] returns afterwards,
    has the id and the events of [c], the wall-clock time as [LastUpdated],
    the supplied value for every supplied key and the value of [c] for every
    other key; the index, the processed events, the number of customers and
    every other slot of the slice are unchanged. *)
Theorem Update_merges_by_key
    (s : Datastore) (id pos : Z) (c : serve.Customer)
    (attributes : gmap string string) (now : Z) :
  customerLinks s !! id = Some pos ->
  index (customers s) pos = Done c ->
  exists c' s',
    Update id attributes now s = Done (ok c', s')
    /\ Get id s' = Done (ok c', s')
    /\ serve.ID c' = serve.ID c
    /\ serve.Events c' = serve.Events c
    /\ serve.LastUpdated c' = now
    /\ (forall k v, attributes !! k = Some v -> serve.Attributes c' !! k = Some v)
    /\ (forall k, attributes !! k = None ->
          serve.Attributes c' !! k = serve.Attributes c !! k)
    /\ customerLinks s' = customerLinks s
    /\ processedEventsMap s' = processedEventsMap s
    /\ len (customers s') = len (customers s)
    /\ (forall i : nat, i <> Z.to_nat pos -> customers s' !! i = customers s !! i).
Proof.
  intros Hl Hc. exists (update_customer attributes now c),
    (store_customer pos (update_customer attributes now c) s).
  split; [unfold Update; by rewrite Hl, Hc|].
  split; [apply (Get_resolved _ id pos); [done|by eapply store_customer_index]|].
  split; [done|]. split; [done|]. split; [done|].
  split; [intros k v Hk; simpl; by apply range_assign_lookup_src|].
  split.
  { intros k Hk. simpl. rewrite range_assign_union. by apply lookup_union_r. }
  split; [done|]. split; [done|]. split; [apply len_insert|].
  intros i Hi. simpl. by rewrite list_lookup_insert_ne.
Qed.

Lemma Update_merges_by_key_witness :
  exists c' s',
    Update 1 {["color" := "green"]} 99 s_one = Done (ok c', s')
    /\ Get 1 s' = Done (ok c', s')
    /\ serve.ID c' = 1
    /\ serve.Events c' = ∅
    /\ serve.LastUpdated c' = 99
    /\ (forall k v, ({["color" := "green"]} : gmap string string) !! k = Some v ->
          serve.Attributes c' !! k = Some v)
    /\ (forall k, ({["color" := "green"]} : gmap string string) !! k = None ->
          serve.Attributes c' !! k = (∅ : gmap string string) !! k)
    /\ customerLinks s' = customerLinks s_one
    /\ processedEventsMap s' = processedEventsMap s_one
    /\ len (customers s') = len (customers s_one)
    /\ (forall i : nat, i <> Z.to_nat 0 -> customers s' !! i = customers s_one !! i).
Proof.
  apply (Update_merges_by_key s_one 1 0 (serve.mkCustomer 1 ∅ ∅ 0)
           {["color" := "green"]} 99); reflexivity.
Defined.

(** X6.  [Update] is idempotent: repeating a call with the same attributes at
    the same clock reading returns the same result and leaves the registry
    as the first call left it. *)
Theorem Update_idempotent
    (s s' : Datastore) (id : Z) (attributes : gmap string string) (now : Z)
    (r : res serve.Customer) :
  Update id attributes now s = Done (r, s') ->
  Update id attributes now s' = Done (r, s').
Proof.
  intros H. destruct (customerLinks s !! id) as [pos|] eqn:Hl.
  2:{ unfold Update in *. rewrite Hl in H. injection H as <- <-. by rewrite Hl. }
  destruct (index (customers s) pos) as [c|] eqn:Hc.
  2:{ unfold Update in H. rewrite Hl, Hc in H. discriminate. }
  rewrite (Update_resolved s id pos c) in H by done. injection H as <- <-.
  rewrite (Update_resolved _ id pos (update_customer attributes now c));
    [|done|by eapply store_customer_index].
  assert (update_customer attributes now (update_customer attributes now c)
          = update_customer attributes now c) as ->.
  { unfold update_customer. simpl. f_equal.
    rewrite !range_assign_union. rewrite (assoc_L (∪)). by rewrite (idemp (∪) attributes). }
  f_equal. f_equal. unfold store_customer, set_customers. simpl. f_equal.
  apply list_insert_insert_eq.
Qed.

Lemma Update_idempotent_witness :
  Update 1 {["color" := "green"]} 99
    (store_customer 0 (serve.mkCustomer 1 {["color" := "green"]} ∅ 99) s_one)
  = Done (ok (serve.mkCustomer 1 {["color" := "green"]} ∅ 99),
          store_customer 0 (serve.mkCustomer 1 {["color" := "green"]} ∅ 99) s_one).
Proof.
  apply (Update_idempotent s_one _ 1 {["color" := "green"]} 99).
  vm_compute. reflexivity.
Defined.

(** ** [Delete] on a registry that satisfies I1 *)

(** Swap-with-last and truncate, slot by slot. *)
Lemma swap_remove_lookup (cs : list serve.Customer) (p : nat) cl (k : nat) c :
  cs !! (List.length cs - 1)%nat = Some cl ->
  (p < List.length cs)%nat ->
  take (List.length cs - 1) (<[p := cl]> cs) !! k = Some c <->
  (k < List.length cs - 1)%nat
  /\ cs !! (if decide (k = p) then (List.length cs - 1)%nat else k) = Some c.
Proof.
  intros Hcl Hp. rewrite lookup_take_Some, list_lookup_insert_Some.
  case_decide as E.
  - subst k. split.
    + intros [[(_ & <- & _)|[? _]] ?]; [|done]. done.
    + intros [? Hk]. rewrite Hcl in Hk. injection Hk as <-.
      split; [|done]. left. done.
  - split.
    + intros [[(? & _)|[_ ?]] ?]; [congruence|done].
    + intros [? ?]. split; [|done]. right. split; [congruence|done].
Qed.

Lemma I1_links_in_bounds s : I1 s -> links_in_bounds s.
Proof.
  intros [_ Hso] id pos Hl. destruct (Hso id pos Hl) as (c & Hc & _).
  by eapply index_Done_bounds.
Qed.

(** What [Delete] leaves, under I1: the slice after the swap and the
    truncation, and the index after the repair, entry by entry. *)
Lemma Delete_I1_analysis s id pos :
  I1 s ->
  customerLinks s !! id = Some pos ->
  let n := List.length (customers s) in
  let p := Z.to_nat pos in
  let sigma := fun k : nat => if decide (k = p) then (n - 1)%nat else k in
  exists c0 cl links',
    customers s !! p = Some c0 /\ serve.ID c0 = id /\ 0 <= pos
    /\ customers s !! (n - 1)%nat = Some cl
    /\ Delete id s =
         Done (None,
               {| customers := take (n - 1) (<[p := cl]> (customers s));
                  customerLinks := links';
                  processedEventsMap := processedEventsMap s |})
    /\ (forall k c,
          take (n - 1) (<[p := cl]> (customers s)) !! k = Some c ->
          (k < n - 1)%nat /\ customers s !! sigma k = Some c /\ sigma k <> p
          /\ serve.ID c <> id
          /\ links' !! serve.ID c
             = Some (Z.of_nat (if decide (2 * Z.of_nat k = Z.of_nat n - 2)
                               then sigma k else k)))
    /\ (forall id' q, links' !! id' = Some q ->
          exists k c, take (n - 1) (<[p := cl]> (customers s)) !! k = Some c
                      /\ serve.ID c = id').
Proof.
  intros HI Hl n p sigma. pose proof HI as [Hex Hso].
  pose proof (index_exact_unique s Hex) as Hu.
  destruct (Hso id pos Hl) as (c0 & Hc0 & Hid0).
  pose proof (index_Done_bounds _ _ _ Hc0) as Hb.
  apply index_Done in Hc0 as [H0 Hc0]. fold p in Hc0.
  destruct (Delete_in_bounds s id pos Hl Hb) as (cl & links' & Hcl & Hloop & HD).
  fold n in Hcl, Hloop, HD. fold p in Hloop, HD.
  set (cs' := take (n - 1) (<[p := cl]> (customers s))) in *.
  assert (p < n)%nat as Hpn by (unfold p, n, len in *; lia).
  assert (forall k c, cs' !! k = Some c <->
                      (k < n - 1)%nat /\ customers s !! sigma k = Some c) as Hlk.
  { intros k c. by apply swap_remove_lookup. }
  assert (forall k, (k < n - 1)%nat -> sigma k <> p) as Hsp.
  { intros k ?. unfold sigma. case_decide; lia. }
  assert (forall k k', (k < n - 1)%nat -> (k' < n - 1)%nat ->
                       sigma k = sigma k' -> k = k') as Hinj.
  { intros k k' ? ?. unfold sigma. repeat case_decide; lia. }
  assert (unique_ids cs') as Hu'.
  { intros k k' c c' [? Hk]%Hlk [? Hk']%Hlk E. apply Hinj; try done.
    by apply (Hu _ _ _ _ Hk Hk'). }
  assert (len cs' = Z.of_nat n - 1) as Hlen'.
  { unfold len, cs'. rewrite length_take, length_insert. fold n. lia. }
  assert (len (customers s) = Z.of_nat n) as Hn by done.
  destruct (fixLinks_loop_spec cs' Hu' n 0 (len (customers s) - 2)
              (delete id (customerLinks s)))
    as (links'' & Hloop' & H2 & H3 & H4); [rewrite ?Hlen', ?Hn; lia..|].
  rewrite Hloop in Hloop'. injection Hloop' as <-.
  assert (forall k c, cs' !! k = Some c -> serve.ID c <> id) as Hne.
  { intros k c [Hk Hc]%Hlk E. rewrite <- Hid0 in E.
    pose proof (Hu _ _ _ _ Hc Hc0 E) as E'. by apply (Hsp k). }
  exists c0, cl, links'. repeat (split; [done|]). split.
  - intros k c Hk. pose proof Hk as [Hkn Hc]%Hlk.
    split; [done|]. split; [done|]. split; [by apply Hsp|].
    split; [by eapply Hne|].
    case_decide as Em.
    + rewrite H3.
      * rewrite lookup_delete_ne by (intros E; by eapply Hne). by apply Hex.
      * intros k' c' Hk' [_ Hv] E.
        assert (k' = k) as -> by (by apply (Hu' _ _ _ _ Hk' Hk)).
        rewrite Hn in Hv. lia.
    + apply (H2 k c Hk). rewrite Hn. split; lia.
  - intros id' q Hq.
    destruct (H4 id' q Hq) as [Hq0|(k & c & Hk & _ & Hidk & _)]; [|eauto].
    rewrite lookup_delete_Some in Hq0. destruct Hq0 as [Hneq Hq0].
    destruct (Hso id' q Hq0) as (c & [Hq1 Hc]%index_Done & Hidc).
    pose proof (lookup_lt_Some _ _ _ Hc) as Hlt. fold n in Hlt.
    assert (Z.to_nat q <> p) as Hqp.
    { intros E. rewrite E, Hc0 in Hc. injection Hc as <-. congruence. }
    destruct (decide (Z.to_nat q = n - 1)%nat) as [El|Nl].
    + exists p, c. split; [|done]. apply Hlk. unfold sigma.
      rewrite decide_True by done. rewrite <- El. split; [lia|done].
    + exists (Z.to_nat q), c. split; [|done]. apply Hlk. unfold sigma.
      rewrite decide_False by done. split; [lia|done].
Qed.

(** Under I1 the repair never brings the deleted id back. *)
Lemma Delete_I1_gone s id pos :
  I1 s ->
  customerLinks s !! id = Some pos ->
  exists s',
    Delete id s = Done (None, s')
    /\ customerLinks s' !! id = None
    /\ len (customers s') = len (customers s) - 1
    /\ processedEventsMap s' = processedEventsMap s.
Proof.
  intros HI Hl.
  destruct (Delete_I1_analysis s id pos HI Hl)
    as (c0 & cl & links' & Hc0 & Hid0 & H0 & Hcl & HD & Hslots & Hdom).
  eexists. split; [exact HD|]. simpl. split; [|split; [|done]].
  - destruct (links' !! id) as [q|] eqn:Hq; [|done].
    destruct (Hdom id q Hq) as (k & c & Hk & Hidk).
    destruct (Hslots k c Hk) as (_ & _ & _ & Hne & _). done.
  - pose proof (lookup_lt_Some _ _ _ Hc0).
    unfold len. rewrite length_take, length_insert. lia.
Qed.

(** X7.  Under I1, [Delete(id)] of a stored id succeeds and removes exactly
    that customer: the customers stored afterwards are those stored before
    whose id is not [id] (each still once), there is one customer less, the
    processed events are untouched, the index has no entry for [id] any
    more and [Get(id)] fails with "customer not found". *)
Theorem Delete_removes_exactly (s : Datastore) (id pos : Z) :
  I1 s ->
  customerLinks s !! id = Some pos ->
  exists s',
    Delete id s = Done (None, s')
    /\ (forall c, c ∈ customers s' <-> c ∈ customers s /\ serve.ID c <> id)
    /\ unique_ids (customers s')
    /\ len (customers s') = len (customers s) - 1
    /\ processedEventsMap s' = processedEventsMap s
    /\ customerLinks s' !! id = None
    /\ Get id s' = Done (err ErrCustomerNotFound, s').
Proof.
  intros HI Hl.
  destruct (Delete_I1_gone s id pos HI Hl) as (s' & HD & Hgone & Hlen & Hproc).
  destruct (Delete_I1_analysis s id pos HI Hl)
    as (c0 & cl & links' & Hc0 & Hid0 & H0 & Hcl & HD' & Hslots & Hdom).
  pose proof (index_exact_unique s (proj1 HI)) as Hu.
  exists s'. split; [exact HD|].
  rewrite HD in HD'. injection HD' as ->. simpl in *.
  set (n := List.length (customers s)) in *. set (p := Z.to_nat pos) in *.
  assert (p < n)%nat as Hpn by (by eapply lookup_lt_Some).
  split; [|split; [|split; [done|split; [done|split; [done|]]]]].
  - intros c. split.
    + intros [k Hk]%list_elem_of_lookup.
      destruct (Hslots k c Hk) as (_ & Hc & _ & Hne & _).
      split; [|done]. apply list_elem_of_lookup. eauto.
    + intros [[t Ht]%list_elem_of_lookup Hne].
      pose proof (lookup_lt_Some _ _ _ Ht) as Hlt. fold n in Hlt.
      assert (t <> p) as Htp.
      { intros ->. rewrite Hc0 in Ht. injection Ht as <-. done. }
      apply list_elem_of_lookup.
      destruct (decide (t = n - 1)%nat) as [El|Nl].
      * exists p. apply swap_remove_lookup; [done..|]. fold n.
        rewrite decide_True by done. rewrite <- El. split; [lia|done].
      * exists t. apply swap_remove_lookup; [done..|]. fold n.
        rewrite decide_False by done. split; [lia|done].
  - intros k k' c c' Hk Hk' E.
    destruct (Hslots k c Hk) as (Hkn & Hc & _).
    destruct (Hslots k' c' Hk') as (Hkn' & Hc' & _).
    pose proof (Hu _ _ _ _ Hc Hc' E) as Es. repeat case_decide; lia.
  - unfold Get. simpl. by rewrite Hgone.
Qed.

Lemma I1_s_one : I1 s_one.
Proof.
  split.
  - intros [|i] c; simpl; [|by rewrite lookup_nil]. by intros [= <-].
  - intros id pos Hl. simpl in Hl. apply lookup_singleton_Some in Hl as [<- <-].
    by exists (serve.mkCustomer 1 ∅ ∅ 0).
Qed.

Lemma Delete_removes_exactly_witness :
  exists s',
    Delete 1 s_one = Done (None, s')
    /\ (forall c, c ∈ customers s' <-> c ∈ customers s_one /\ serve.ID c <> 1)
    /\ unique_ids (customers s')
    /\ len (customers s') = len (customers s_one) - 1
    /\ processedEventsMap s' = processedEventsMap s_one
    /\ customerLinks s' !! 1 = None
    /\ Get 1 s' = Done (err ErrCustomerNotFound, s').
Proof. apply (Delete_removes_exactly s_one 1 0 I1_s_one). reflexivity. Defined.

(** X8.  Delete and reinsert.  Under I1, after [Delete(id)] of a stored id a
    [Create(id, attributes)] succeeds, and the customer that [Get(id)] then
    returns carries the new attributes only, no events and the new creation
    time: nothing of the deleted customer comes back.  The number of
    customers is what it was before the two calls. *)
Theorem Delete_then_Create
    (s : Datastore) (id pos : Z) (attributes : gmap string string) (now : Z) :
  I1 s ->
  customerLinks s !! id = Some pos ->
  exists s1 s2,
    Delete id s = Done (None, s1)
    /\ Create id attributes now s1
       = Done (ok (serve.mkCustomer id attributes ∅ now), s2)
    /\ Get id s2 = Done (ok (serve.mkCustomer id attributes ∅ now), s2)
    /\ len (customers s2) = len (customers s).
Proof.
  intros HI Hl.
  destruct (Delete_I1_gone s id pos HI Hl) as (s1 & HD & Hgone & Hlen & _).
  exists s1. eexists. split; [done|]. split; [by apply Create_fresh|]. split.
  - apply (Get_resolved _ id (len (customers s1))); simpl.
    + by rewrite lookup_insert_eq.
    + apply index_Done. unfold len. rewrite Nat2Z.id. split; [lia|].
      by apply list_lookup_middle.
  - simpl. rewrite len_app_one. lia.
Qed.

Lemma Delete_then_Create_witness :
  exists s1 s2,
    Delete 1 s_one = Done (None, s1)
    /\ Create 1 {["color" := "green"]} 77 s1
       = Done (ok (serve.mkCustomer 1 {["color" := "green"]} ∅ 77), s2)
    /\ Get 1 s2 = Done (ok (serve.mkCustomer 1 {["color" := "green"]} ∅ 77), s2)
    /\ len (customers s2) = len (customers s_one).
Proof.
  apply (Delete_then_Create s_one 1 0 {["color" := "green"]} 77 I1_s_one).
  reflexivity.
Defined.

(** X9.  What the skipped middle position costs.  Under I1, with [n]
    customers stored, [Delete(id)] of the customer at position [pos] leaves
    a registry that satisfies I1 again unless [pos] is not the last
    position and [2 * pos = n - 2]; in that case the customer that was last
    is stored at [pos], its index entry still says [n - 1], and [Get],
    [Update] and [Delete] of its id panic. *)
Theorem Delete_I1_or_unreachable_customer (s : Datastore) (id pos : Z) :
  I1 s ->
  customerLinks s !! id = Some pos ->
  exists s',
    Delete id s = Done (None, s')
    /\ (~ (pos < len (customers s) - 1 /\ 2 * pos = len (customers s) - 2) -> I1 s')
    /\ (pos < len (customers s) - 1 /\ 2 * pos = len (customers s) - 2 ->
        exists cl,
          last (customers s) = Some cl
          /\ customers s' !! Z.to_nat pos = Some cl
          /\ customerLinks s' !! serve.ID cl = Some (len (customers s) - 1)
          /\ Get (serve.ID cl) s' = Panic
          /\ (forall attributes now, Update (serve.ID cl) attributes now s' = Panic)
          /\ Delete (serve.ID cl) s' = Panic).
Proof.
  intros HI Hl.
  destruct (Delete_under_I1 s id pos HI Hl) as (s' & HD & _ & Hlen & Hiff).
  exists s'. split; [done|]. split; [by apply Hiff|].
  intros [Hp1 Hp2].
  destruct (Delete_I1_analysis s id pos HI Hl)
    as (c0 & cl & links' & Hc0 & Hid0 & H0 & Hcl & HD' & Hslots & Hdom).
  rewrite HD in HD'. injection HD' as ->.
  set (n := List.length (customers s)) in *. set (p := Z.to_nat pos) in *.
  assert (len (customers s) = Z.of_nat n) as Hn by done. rewrite Hn in *.
  assert (take (n - 1) (<[p := cl]> (customers s)) !! p = Some cl) as Hp.
  { apply swap_remove_lookup; [done|by eapply lookup_lt_Some|]. fold n.
    rewrite decide_True by done. split; [unfold p; lia|done]. }
  destruct (Hslots p cl Hp) as (_ & _ & _ & _ & Hstale).
  rewrite decide_True in Hstale by (unfold p; lia).
  rewrite decide_True in Hstale by done.
  assert (customerLinks
            {| customers := take (n - 1) (<[p := cl]> (customers s));
               customerLinks := links';
               processedEventsMap := processedEventsMap s |} !! serve.ID cl
          = Some (Z.of_nat n - 1)) as Hentry.
  { simpl. rewrite Hstale. f_equal. lia. }
  exists cl. split.
  { rewrite last_lookup. fold n. by replace (pred n) with (n - 1)%nat by lia. }
  split; [done|]. split; [done|].
  assert (exists q, customerLinks
            {| customers := take (n - 1) (<[p := cl]> (customers s));
               customerLinks := links';
               processedEventsMap := processedEventsMap s |} !! serve.ID cl = Some q
          /\ ~ (0 <= q < len (take (n - 1) (<[p := cl]> (customers s))))) as Hoob.
  { eexists. split; [exact Hentry|]. simpl in Hlen. lia. }
  destruct Hoob as (q & Hq & Hqb).
  split; [|split].
  - by apply (entry_out_of_bounds_panics _ (serve.ID cl) q ∅ 0).
  - intros a now. by apply (entry_out_of_bounds_panics _ (serve.ID cl) q a now).
  - by apply (entry_out_of_bounds_panics _ (serve.ID cl) q ∅ 0).
Qed.

Lemma I1_s_two : I1 s_two.
Proof.
  apply (Create_preserves_I1 2 ∅ 200
           {| customers := [serve.mkCustomer 1 ∅ ∅ 100];
              customerLinks := {[1 := 0]};
              processedEventsMap := ∅ |}
           (ok (serve.mkCustomer 2 ∅ ∅ 200)));
    [|vm_compute; reflexivity].
  apply (Create_preserves_I1 1 ∅ 100 empty_store (ok (serve.mkCustomer 1 ∅ ∅ 100)));
    [apply I1_empty_store|vm_compute; reflexivity].
Qed.

(** X9 at two customers: deleting the first one moves the second to the
    skipped middle position 0. *)
Lemma Delete_I1_or_unreachable_customer_witness :
  exists s',
    Delete 1 s_two = Done (None, s')
    /\ (~ (0 < len (customers s_two) - 1 /\ 2 * 0 = len (customers s_two) - 2) -> I1 s')
    /\ (0 < len (customers s_two) - 1 /\ 2 * 0 = len (customers s_two) - 2 ->
        exists cl,
          last (customers s_two) = Some cl
          /\ customers s' !! Z.to_nat 0 = Some cl
          /\ customerLinks s' !! serve.ID cl = Some (len (customers s_two) - 1)
          /\ Get (serve.ID cl) s' = Panic
          /\ (forall attributes now, Update (serve.ID cl) attributes now s' = Panic)
          /\ Delete (serve.ID cl) s' = Panic).
Proof. apply (Delete_I1_or_unreachable_customer s_two 1 0 I1_s_two). reflexivity. Defined.

(** ** Histories without [Delete] *)

Lemma run_op_keeps_I1 o s :
  I1 s -> is_delete o = false ->
  exists s',
    run_op o s = Done s' /\ I1 s'
    /\ (forall (i : nat) c, customers s !! i = Some c ->
          exists c', customers s' !! i = Some c' /\ serve.ID c' = serve.ID c).
Proof.
  intros HI Ho. destruct o as [r|id a now|id a now|id]; try discriminate; simpl.
  - destruct (New_body_in_bounds r s (I1_links_in_bounds s HI)) as (s' & HN & _).
    exists s'. rewrite HN. simpl. split; [done|]. split.
    + by eapply New_body_preserves_I1.
    + intros i c Hi. destruct (New_body_monotone r s s' i c HN Hi) as (c' & ? & ? & _).
      eauto.
  - destruct (customerLinks s !! id) as [pos|] eqn:Hl.
    + rewrite Create_present by eauto. simpl.
      exists s. split; [done|]. split; [done|]. intros i c Hi. eauto.
    + rewrite Create_fresh by done. simpl. eexists. split; [done|]. split.
      * eapply (Create_preserves_I1 id a now s); [done|by apply Create_fresh].
      * intros i c Hi. exists c. split; [|done]. simpl. by apply lookup_app_l_Some.
  - destruct (customerLinks s !! id) as [pos|] eqn:Hl.
    2:{ unfold Update. rewrite Hl. simpl.
        exists s. split; [done|]. split; [done|]. intros i c Hi. eauto. }
    destruct (proj2 HI id pos Hl) as (c0 & Hc0 & Hid0).
    rewrite (Update_resolved s id pos c0) by done. simpl.
    eexists. split; [done|]. split.
    + eapply (I1_ext s); [|done|done]. by apply (store_customer_ids s pos c0).
    + intros i c Hi.
      destruct (store_customer_lookup s pos c0 (update_customer a now c0) i c Hc0 Hi)
        as [Hlk Heq].
      eexists. split; [exact Hlk|]. case_decide as E; [|done].
      simpl. by rewrite (Heq E).
Qed.

(** X10.  Only [Delete] can break the index.  From a registry that
    satisfies I1, a history of ingested records, [Create]s and [Update]s in
    any order and of any length never panics and ends in a registry that
    satisfies I1, in which every customer stored at the start is still in
    its slot, with its id. *)
Theorem history_without_Delete_keeps_I1 (os : list op) (s : Datastore) :
  I1 s ->
  forallb (fun o => negb (is_delete o)) os = true ->
  exists s',
    run_ops os s = Done s' /\ I1 s'
    /\ (forall (i : nat) c, customers s !! i = Some c ->
          exists c', customers s' !! i = Some c' /\ serve.ID c' = serve.ID c).
Proof.
  revert s. induction os as [|o os IH]; intros s HI Hos; simpl.
  - exists s. split; [done|]. split; [done|]. eauto.
  - simpl in Hos. apply andb_prop in Hos as [Ho Hos].
    apply negb_true_iff in Ho.
    destruct (run_op_keeps_I1 o s HI Ho) as (s1 & -> & HI1 & Hk1). simpl.
    destruct (IH s1 HI1 Hos) as (s' & Hrun & HI' & Hk').
    exists s'. split; [done|]. split; [done|].
    intros i c Hi. destruct (Hk1 i c Hi) as (c1 & Hc1 & Hid1).
    destruct (Hk' i c1 Hc1) as (c' & Hc' & Hid').
    exists c'. split; [done|]. congruence.
Qed.

Lemma history_without_Delete_keeps_I1_witness :
  exists s',
    run_ops [Ingest ev1; DoCreate 7 ∅ 50; DoUpdate 1 {["color" := "green"]} 99; Ingest at2]
      s_one = Done s'
    /\ I1 s'
    /\ (forall (i : nat) c, customers s_one !! i = Some c ->
          exists c', customers s' !! i = Some c' /\ serve.ID c' = serve.ID c).
Proof.
  apply (history_without_Delete_keeps_I1
           [Ingest ev1; DoCreate 7 ∅ 50; DoUpdate 1 {["color" := "green"]} 99; Ingest at2]
           s_one I1_s_one).
  reflexivity.
Defined.

(** ** What [New] returns *)

Lemma user_of_Some r id : user_of r = Some id <-> Atoi (stream.UserID r) = ok id.
Proof. unfold user_of. destruct (Atoi _); split; congruence. Qed.

Lemma user_of_None r : user_of r = None <-> exists e, Atoi (stream.UserID r) = err e.
Proof.
  unfold user_of. destruct (Atoi _) as [id|e]; split; try done.
  - by intros [e ?].
  - eauto.
Qed.

Lemma first_seen_elem seen ids x :
  x ∈ first_seen seen ids <-> x ∈ ids /\ x ∉ seen.
Proof.
  revert seen. induction ids as [|id ids IH]; intros seen; simpl.
  - split; [by intros ?%elem_of_nil|by intros [?%elem_of_nil _]].
  - case_decide as E.
    + rewrite IH, elem_of_cons. split; [tauto|]. intros [[->|?] ?]; tauto.
    + rewrite !elem_of_cons, IH, elem_of_app, list_elem_of_singleton.
      split.
      * intros [->|[? ?]]; [tauto|]. split; [tauto|]. tauto.
      * intros [[->|?] ?]; [tauto|].
        destruct (decide (x = id)); [tauto|]. right. tauto.
Qed.

Lemma first_seen_NoDup seen ids : NoDup (first_seen seen ids).
Proof.
  revert seen. induction ids as [|id ids IH]; intros seen; simpl.
  - constructor.
  - case_decide; [apply IH|]. constructor; [|apply IH].
    rewrite first_seen_elem, elem_of_app, list_elem_of_singleton. tauto.
Qed.

Lemma I1_stored_ids s id :
  I1 s -> id ∈ serve.ID <$> customers s <-> is_Some (customerLinks s !! id).
Proof.
  intros HI. rewrite (I1_present s id HI), list_elem_of_fmap.
  split; intros (c & ? & ?); eauto.
Qed.

Lemma New_body_ids r s s1 :
  I1 s ->
  New_body r s = Done (Next s1) ->
  serve.ID <$> customers s1
  = (serve.ID <$> customers s)
      ++ first_seen (serve.ID <$> customers s) (omap user_of [r]).
Proof.
  intros HI H. simpl. unfold New_body, isUserRegistered in H.
  destruct (Atoi (stream.UserID r)) as [id|e0] eqn:Hid.
  2:{ injection H as <-. assert (user_of r = None) as -> by (apply user_of_None; eauto).
      simpl. by rewrite app_nil_r. }
  assert (user_of r = Some id) as -> by (by apply user_of_Some). simpl.
  destruct (customerLinks s !! id) as [pos|] eqn:Hl.
  - destruct (processRecord r s) as [[[e|] s2]|] eqn:E; simpl in H; try discriminate.
    injection H as <-. destruct (processRecord_frame _ _ _ _ E) as [_ ->].
    rewrite decide_True by (apply I1_stored_ids; eauto). by rewrite app_nil_r.
  - destruct (processRecord r _) as [[[e|] s2]|] eqn:E; simpl in H; try discriminate.
    injection H as <-. destruct (processRecord_frame _ _ _ _ E) as [_ ->].
    destruct (registered_resolves r s id Hid) as (_ & _ & -> & _).
    rewrite decide_False.
    2:{ rewrite I1_stored_ids by done. rewrite Hl. by intros [? ?]. }
    by rewrite fmap_app.
Qed.

Lemma first_seen_app seen ids1 ids2 :
  first_seen seen (ids1 ++ ids2)
  = first_seen seen ids1 ++ first_seen (seen ++ first_seen seen ids1) ids2.
Proof.
  revert seen. induction ids1 as [|id ids1 IH]; intros seen; simpl.
  - by rewrite app_nil_r.
  - case_decide; [apply IH|]. rewrite IH. simpl. by rewrite <- (assoc_L (++)).
Qed.

Lemma New_loop_ids rs s0 s :
  I1 s0 ->
  New_loop rs s0 = Done (ok s) ->
  serve.ID <$> customers s
  = (serve.ID <$> customers s0)
      ++ first_seen (serve.ID <$> customers s0) (omap user_of rs).
Proof.
  revert s0. induction rs as [|r rs IH]; intros s0 HI H; simpl in H.
  - injection H as <-. simpl. by rewrite app_nil_r.
  - destruct (New_body r s0) as [[s1|e]|] eqn:E; simpl in H; try discriminate.
    pose proof (New_body_preserves_I1 r s0 s1 HI E) as HI1.
    rewrite (IH s1 HI1 H). rewrite (New_body_ids r s0 s1 HI E).
    change (r :: rs) with ([r] ++ rs). rewrite omap_app.
    rewrite first_seen_app. by rewrite <- (assoc_L (++)).
Qed.

(** X11.  [New] accepts every sequence of records: it returns a registry,
    never an error and never a panic; the registry satisfies I1, its stored
    ids are pairwise distinct and every index entry is within the slice; and
    ingestion is incremental: the registry for [rs ++ rs2] is the one the
    loop reaches on [rs2] from the registry for [rs]. *)
Theorem New_returns_a_valid_registry (rs : list stream.Record_) :
  exists s,
    New rs = Done (ok s)
    /\ I1 s
    /\ unique_ids (customers s)
    /\ links_in_bounds s
    /\ (forall rs2, New (rs ++ rs2) = New_loop rs2 s).
Proof.
  destruct (New_total rs) as (s & HN & Hb). exists s.
  pose proof (New_I1 rs s HN) as HI.
  split; [done|]. split; [done|]. split; [by apply index_exact_unique, HI|].
  split; [done|].
  intros rs2. unfold New in *. rewrite New_loop_app, HN. done.
Qed.

(** X12.  One customer per distinct user id, in the order of first
    sighting.  The ids of the customers that [New] stores are the user ids
    that [strconv.Atoi] accepts among the records, each once, in the order
    in which they first occur in the input; [TotalCustomers] is their
    number. *)
Theorem New_stores_users_in_first_seen_order (rs : list stream.Record_) :
  exists s,
    New rs = Done (ok s)
    /\ serve.ID <$> customers s = first_seen [] (omap user_of rs)
    /\ NoDup (serve.ID <$> customers s)
    /\ (forall id, id ∈ serve.ID <$> customers s <->
                   exists r, r ∈ rs /\ Atoi (stream.UserID r) = ok id)
    /\ TotalCustomers s
       = Done (ok (Z.of_nat (List.length (first_seen [] (omap user_of rs)))), s).
Proof.
  destruct (New_total rs) as (s & HN & _). exists s. split; [done|].
  assert (serve.ID <$> customers s = first_seen [] (omap user_of rs)) as Hids.
  { unfold New in HN. by rewrite (New_loop_ids rs empty_store s I1_empty_store HN). }
  split; [done|]. split; [rewrite Hids; apply first_seen_NoDup|]. split.
  - intros id. rewrite Hids, first_seen_elem, list_elem_of_omap.
    split.
    + intros [(r & Hr & Hu) _]. exists r. split; [done|]. by apply user_of_Some.
    + intros (r & Hr & Hu). split; [|by intros ?%elem_of_nil].
      exists r. split; [done|]. by apply user_of_Some.
  - unfold TotalCustomers. rewrite <- Hids. unfold len. by rewrite length_fmap.
Qed.

(** ** The applied record ids *)

Lemma processRecord_processed r s e s1 :
  processRecord r s = Done (e, s1) ->
  processedEventsMap s1 =
    if decide (stream.Type_ r = "event" /\ is_Some (user_of r)
               /\ processedEventsMap s !! stream.ID r = None)
    then <[stream.ID r := true]> (processedEventsMap s)
    else processedEventsMap s.
Proof.
  unfold processRecord, user_of.
  destruct (Atoi (stream.UserID r)) as [id|e0].
  2:{ intros [= <- <-]. rewrite decide_False; [done|]. by intros (_ & [? ?] & _). }
  destruct (index _ _); simpl; [|discriminate].
  destruct (decide (stream.Type_ r = "event")) as [Ht|Ht].
  - destruct (processedEventsMap s !! stream.ID r) eqn:Hp; intros [= <- <-]; simpl.
    + rewrite decide_False; [done|]. intros (_ & _ & ?). congruence.
    + rewrite decide_True; [done|]. eauto.
  - destruct (decide (stream.Type_ r = "attributes")); intros [= <- <-]; simpl;
      (rewrite decide_False; [done|]; by intros (? & _)).
Qed.

Lemma New_body_processed r s s1 :
  New_body r s = Done (Next s1) ->
  processedEventsMap s1 =
    if decide (stream.Type_ r = "event" /\ is_Some (user_of r)
               /\ processedEventsMap s !! stream.ID r = None)
    then <[stream.ID r := true]> (processedEventsMap s)
    else processedEventsMap s.
Proof.
  intros H. unfold New_body, isUserRegistered in H.
  destruct (Atoi (stream.UserID r)) as [id|e0] eqn:Hid.
  2:{ injection H as <-. rewrite decide_False; [done|].
      intros (_ & [? Hu] & _). apply user_of_Some in Hu. congruence. }
  destruct (customerLinks s !! id) as [pos|] eqn:Hl.
  - destruct (processRecord r s) as [[[e|] s2]|] eqn:E; simpl in H; try discriminate.
    injection H as <-. by apply (processRecord_processed r s None).
  - destruct (processRecord r _) as [[[e|] s2]|] eqn:E; simpl in H; try discriminate.
    injection H as <-. apply processRecord_processed in E.
    destruct (registered_resolves r s id Hid) as (_ & _ & _ & Hp).
    by rewrite Hp in E.
Qed.

Lemma New_loop_processed rs s0 s :
  New_loop rs s0 = Done (ok s) ->
  forall k b,
    processedEventsMap s !! k = Some b <->
    processedEventsMap s0 !! k = Some b
    \/ (processedEventsMap s0 !! k = None /\ b = true
        /\ exists r, r ∈ rs /\ stream.Type_ r = "event"
                     /\ is_Some (user_of r) /\ stream.ID r = k).
Proof.
  revert s0. induction rs as [|r rs IH]; intros s0 H k b; simpl in H.
  - injection H as <-. split; [by left|].
    intros [?|(_ & _ & r & ?%elem_of_nil & _)]; done.
  - destruct (New_body r s0) as [[s1|e]|] eqn:E; simpl in H; try discriminate.
    rewrite (IH s1 H k b). rewrite (New_body_processed r s0 s1 E).
    case_decide as D.
    + destruct D as (Ht & Hu & Hp).
      destruct (decide (stream.ID r = k)) as [<-|Hne].
      * rewrite lookup_insert_eq. split.
        -- intros [[= <-]|(? & _)]; [|done]. right. split; [done|]. split; [done|].
           exists r. rewrite elem_of_cons. eauto.
        -- intros [?|(_ & -> & _)]; [congruence|]. by left.
      * rewrite lookup_insert_ne by done. split.
        -- intros [?|(? & ? & r' & ? & ?)]; [by left|]. right.
           split; [done|]. split; [done|]. exists r'. rewrite elem_of_cons. eauto.
        -- intros [?|(? & ? & r' & [->|?]%elem_of_cons & ? & ? & ?)];
             [by left|done|]. right. eauto 10.
    + split.
      * intros [?|(? & ? & r' & ? & ?)]; [by left|]. right.
        split; [done|]. split; [done|]. exists r'. rewrite elem_of_cons. eauto.
      * intros [?|(Hk & ? & r' & [->|?]%elem_of_cons & Ht & Hu & Hid)];
          [by left| |right; eauto 10].
        subst k. exfalso. apply D. eauto.
Qed.

(** X13.  The applied record ids are exactly the ids of the event records
    that name a user: in the registry that [New] returns,
    [processedEventsMap] holds [true] at the record id of every record of
    kind "event" whose user id parses, and holds nothing else (no other key,
    and never [false]). *)
Theorem New_processed_ids_exact (rs : list stream.Record_) :
  exists s,
    New rs = Done (ok s)
    /\ forall k b,
         processedEventsMap s !! k = Some b <->
         b = true
         /\ exists r, r ∈ rs /\ stream.Type_ r = "event"
                      /\ (exists id, Atoi (stream.UserID r) = ok id)
                      /\ stream.ID r = k.
Proof.
  destruct (New_total rs) as (s & HN & _). exists s. split; [done|].
  intros k b. unfold New in HN. rewrite (New_loop_processed rs empty_store s HN k b).
  simpl. rewrite lookup_empty. split.
  - intros [?|(_ & -> & r & Hr & Ht & [id Hu] & Hid)]; [done|].
    split; [done|]. exists r. repeat (split; [done|]). split; [|done].
    exists id. by apply user_of_Some.
  - intros (-> & r & Hr & Ht & [id Hu] & Hid). right.
    split; [done|]. split; [done|]. exists r. repeat (split; [done|]).
    split; [|done]. exists id. by apply user_of_Some.
Qed.

(** ** What each kind of record leaves alone *)

Lemma processRecord_kinds r s e s1 (i : nat) c :
  processRecord r s = Done (e, s1) ->
  customers s !! i = Some c ->
  exists c', customers s1 !! i = Some c'
    /\ (stream.Type_ r <> "event" -> serve.Events c' = serve.Events c)
    /\ (stream.Type_ r <> "attributes" -> serve.Attributes c' = serve.Attributes c).
Proof.
  intros H Hi. unfold processRecord in H.
  destruct (Atoi (stream.UserID r)) as [id|e0]; [|injection H as <- <-; eauto].
  destruct (index (customers s) _) as [c0|] eqn:Hc; simpl in H; [|discriminate].
  repeat (case_decide || case_match); injection H as <- <-; try (by eauto);
    match goal with
    | |- context [store_customer ?pos ?c1 ?s0] =>
        destruct (store_customer_lookup s0 pos c0 c1 i c Hc Hi) as [Hlk Heq]
    end;
    (eexists; split; [exact Hlk|]);
    (case_decide as Ei; [rewrite (Heq Ei)|done]);
    rewrite raise_LastUpdated_Events, raise_LastUpdated_Attributes; simpl;
    split; intros; done.
Qed.

(** X14.  The kinds of record do not interfere.  Whatever the registry, a
    record that is not of kind "event" changes no event count and no
    applied record id, and a record that is not of kind "attributes" changes
    no attribute, of any stored customer; and no record removes or moves a
    customer or alters an existing index entry. *)
Theorem record_kinds_do_not_interfere
    (r : stream.Record_) (s s' : Datastore) (i : nat) (c : serve.Customer) :
  New_body r s = Done (Next s') ->
  customers s !! i = Some c ->
  (exists c',
      customers s' !! i = Some c'
      /\ serve.ID c' = serve.ID c
      /\ (stream.Type_ r <> "event" -> serve.Events c' = serve.Events c)
      /\ (stream.Type_ r <> "attributes" ->
          serve.Attributes c' = serve.Attributes c))
  /\ (stream.Type_ r <> "event" -> processedEventsMap s' = processedEventsMap s)
  /\ (forall id pos, customerLinks s !! id = Some pos ->
                     customerLinks s' !! id = Some pos).
Proof.
  intros H Hi. split; [|split].
  - destruct (New_body_monotone r s s' i c H Hi) as (c1 & Hc1 & Hid1 & _).
    exists c1. split; [done|]. split; [done|].
    unfold New_body, isUserRegistered in H.
    destruct (Atoi (stream.UserID r)) as [id|e0] eqn:Hid.
    2:{ injection H as <-. rewrite Hi in Hc1. by injection Hc1 as <-. }
    destruct (customerLinks s !! id).
    + destruct (processRecord r s) as [[[e|] s2]|] eqn:E; simpl in H; try discriminate.
      injection H as <-.
      destruct (processRecord_kinds r s None s2 i c E Hi) as (c' & Hc' & ?).
      rewrite Hc' in Hc1. by injection Hc1 as <-.
    + destruct (registered_resolves r s id Hid) as (_ & _ & Hcs & _).
      destruct (processRecord r _) as [[[e|] s2]|] eqn:E; simpl in H; try discriminate.
      injection H as <-.
      assert (customers (snd (registerCustomerFromRecord r s)) !! i = Some c) as Hi0.
      { rewrite Hcs. by apply lookup_app_l_Some. }
      destruct (processRecord_kinds r _ None s2 i c E Hi0) as (c' & Hc' & ?).
      rewrite Hc' in Hc1. by injection Hc1 as <-.
  - intros Ht. rewrite (New_body_processed r s s' H).
    rewrite decide_False; [done|]. by intros (? & _).
  - intros id' pos Hl. unfold New_body, isUserRegistered in H.
    destruct (Atoi (stream.UserID r)) as [id|e0] eqn:Hid; [|by injection H as <-].
    destruct (customerLinks s !! id) eqn:Hlid.
    + destruct (processRecord r s) as [[[e|] s2]|] eqn:E; simpl in H; try discriminate.
      injection H as <-. destruct (processRecord_frame _ _ _ _ E) as [-> _]. done.
    + destruct (processRecord r _) as [[[e|] s2]|] eqn:E; simpl in H; try discriminate.
      injection H as <-. destruct (processRecord_frame _ _ _ _ E) as [-> _].
      rewrite (registerCustomerFromRecord_ok r s id Hid). simpl.
      rewrite lookup_insert_ne; [done|]. congruence.
Qed.

Lemma record_kinds_do_not_interfere_witness :
  (exists c',
      customers (store_customer 0 (serve.mkCustomer 1 {["color" := "blue"]} ∅ 20) s_one)
        !! 0%nat = Some c'
      /\ serve.ID c' = 1
      /\ (stream.Type_ at2 <> "event" -> serve.Events c' = ∅)
      /\ (stream.Type_ at2 <> "attributes" -> serve.Attributes c' = ∅))
  /\ (stream.Type_ at2 <> "event" ->
      processedEventsMap
        (store_customer 0 (serve.mkCustomer 1 {["color" := "blue"]} ∅ 20) s_one)
      = processedEventsMap s_one)
  /\ (forall id pos, customerLinks s_one !! id = Some pos ->
        customerLinks
          (store_customer 0 (serve.mkCustomer 1 {["color" := "blue"]} ∅ 20) s_one)
          !! id = Some pos).
Proof.
  apply (record_kinds_do_not_interfere at2 s_one _ 0 (serve.mkCustomer 1 ∅ ∅ 0)).
  - vm_compute. reflexivity.
  - reflexivity.
Defined.

(** ** The first record of a user *)

(** A record of a user that has no index entry, in any registry. *)
Lemma New_body_first_sighting (r : stream.Record_) (s : Datastore) (id : Z) :
  Atoi (stream.UserID r) = ok id ->
  customerLinks s !! id = None ->
  exists c s',
    New_body r s = Done (Next s')
    /\ customers s' = customers s ++ [c]
    /\ customerLinks s' = <[id := len (customers s)]> (customerLinks s)
    /\ serve.ID c = id
    /\ serve.LastUpdated c = stream.Timestamp r
    /\ serve.Attributes c
       = (if decide (stream.Type_ r = "attributes") then stream.Data r else ∅)
    /\ serve.Events c
       = (if decide (stream.Type_ r = "event"
                     /\ processedEventsMap s !! stream.ID r = None)
          then {[stream.Name r := 1]} else ∅).
Proof.
  intros Hid Hl. rewrite (New_body_unregistered r s id Hid Hl).
  destruct (registered_resolves r s id Hid) as (Hl0 & Hc0 & Hcs & Hp0).
  pose proof (registerCustomerFromRecord_ok r s id Hid) as Hreg.
  set (s0 := snd (registerCustomerFromRecord r s)) in *.
  set (c0 := serve.mkCustomer id ∅ ∅ (stream.Timestamp r)) in *.
  assert (s0 = {| customers := customers s ++ [c0];
                  customerLinks := <[id := len (customers s)]> (customerLinks s);
                  processedEventsMap := processedEventsMap s |}) as Hs0.
  { unfold s0. by rewrite Hreg. }
  assert (forall c1 s2,
            customers s2 = customers s0 -> customerLinks s2 = customerLinks s0 ->
            customers (store_customer (len (customers s)) c1 s2) = customers s ++ [c1]
            /\ customerLinks (store_customer (len (customers s)) c1 s2)
               = <[id := len (customers s)]> (customerLinks s)) as Hstore.
  { intros c1 s2 E1 E2. split; [|simpl; by rewrite E2, Hs0].
    simpl. rewrite E1, Hs0. simpl. unfold len. rewrite Nat2Z.id.
    replace (List.length (customers s))
      with (List.length (customers s) + 0)%nat at 1 by lia.
    by rewrite insert_app_r. }
  destruct (decide (stream.Type_ r = "event")) as [Ht|Ht].
  - destruct (processedEventsMap s !! stream.ID r) as [b|] eqn:Hp.
    + rewrite (processRecord_event_duplicate r s0 id _ c0 Hid Hl0 Hc0 Ht)
        by (rewrite Hp0, Hp; eauto).
      simpl. exists c0, s0. split; [done|]. rewrite Hs0. simpl.
      repeat (split; [done|]). split.
      * rewrite decide_False; [done|]. rewrite Ht. discriminate.
      * rewrite decide_False; [done|]. intros [_ ?]. congruence.
    + rewrite (processRecord_event_fresh r s0 id _ c0 Hid Hl0 Hc0 Ht)
        by (by rewrite Hp0).
      simpl. eexists _, _. split; [reflexivity|].
      destruct (Hstore (raise_LastUpdated (stream.Timestamp r)
                          (count_event (stream.Name r) c0))
                  (set_processedEventsMap
                     (<[stream.ID r := true]> (processedEventsMap s0)) s0))
        as [E1 E2]; [done..|].
      split; [exact E1|]. split; [exact E2|].
      rewrite raise_LastUpdated_old by (simpl; lia). simpl.
      repeat (split; [done|]). split.
      * rewrite decide_False; [done|]. rewrite Ht. discriminate.
      * rewrite decide_True by done. rewrite lookup_empty. by rewrite insert_empty.
  - destruct (decide (stream.Type_ r = "attributes")) as [Ha|Ha].
    + rewrite (processRecord_attributes r s0 id _ c0 Hid Hl0 Hc0 Ha). simpl.
      eexists _, _. split; [reflexivity|].
      rewrite decide_True by lia.
      destruct (Hstore (raise_LastUpdated (stream.Timestamp r)
                          (set_attributes (stream.Data r) c0)) s0)
        as [E1 E2]; [done..|].
      split; [exact E1|]. split; [exact E2|].
      rewrite raise_LastUpdated_old by (simpl; lia). simpl.
      repeat (split; [done|]). split.
      * by rewrite range_assign_empty.
      * rewrite decide_False; [done|]. by intros [? _].
    + rewrite (processRecord_other r s0 id _ c0 Hid Hl0 Hc0 Ht Ha). simpl.
      eexists _, _. split; [reflexivity|].
      destruct (Hstore (raise_LastUpdated (stream.Timestamp r) c0) s0)
        as [E1 E2]; [done..|].
      split; [exact E1|]. split; [exact E2|].
      rewrite raise_LastUpdated_old by (simpl; lia). simpl.
      repeat (split; [done|]). rewrite decide_False by tauto. done.
Qed.

(** X15.  First sighting.  In any registry, a record whose user id parses
    and has no index entry never panics: it appends one customer with that
    id and the record's timestamp as [LastUpdated], registers it at the new
    last position, and applies the record to it: the customer holds the
    record's data if the record is of kind "attributes", and one occurrence
    of the record's event name if it is of kind "event" with a record id
    not applied before; otherwise it is empty. *)
Theorem first_sighting_registers (r : stream.Record_) (s : Datastore) (id : Z) :
  Atoi (stream.UserID r) = ok id ->
  customerLinks s !! id = None ->
  exists c s',
    New_body r s = Done (Next s')
    /\ customers s' = customers s ++ [c]
    /\ customerLinks s' = <[id := len (customers s)]> (customerLinks s)
    /\ serve.ID c = id
    /\ serve.LastUpdated c = stream.Timestamp r
    /\ serve.Attributes c
       = (if decide (stream.Type_ r = "attributes") then stream.Data r else ∅)
    /\ serve.Events c
       = (if decide (stream.Type_ r = "event"
                     /\ processedEventsMap s !! stream.ID r = None)
          then {[stream.Name r := 1]} else ∅)
    /\ Get id s' = Done (ok c, s').
Proof.
  intros Hid Hl.
  destruct (New_body_first_sighting r s id Hid Hl)
    as (c & s' & HN & Hcs & Hls & Hrest).
  exists c, s'. split; [done|]. split; [done|]. split; [done|].
  repeat (split; [apply Hrest|]).
  apply (Get_resolved _ id (len (customers s))).
  - by rewrite Hls, lookup_insert_eq.
  - rewrite Hcs. apply index_Done. unfold len. rewrite Nat2Z.id.
    split; [lia|]. by apply list_lookup_middle.
Qed.

Lemma first_sighting_registers_witness :
  exists c s',
    New_body ev1_user2 s_one = Done (Next s')
    /\ customers s' = customers s_one ++ [c]
    /\ customerLinks s' = <[2 := len (customers s_one)]> (customerLinks s_one)
    /\ serve.ID c = 2
    /\ serve.LastUpdated c = stream.Timestamp ev1_user2
    /\ serve.Attributes c
       = (if decide (stream.Type_ ev1_user2 = "attributes")
          then stream.Data ev1_user2 else ∅)
    /\ serve.Events c
       = (if decide (stream.Type_ ev1_user2 = "event"
                     /\ processedEventsMap s_one !! stream.ID ev1_user2 = None)
          then {[stream.Name ev1_user2 := 1]} else ∅)
    /\ Get 2 s' = Done (ok c, s').
Proof. apply (first_sighting_registers ev1_user2 s_one 2); reflexivity. Defined.

(** ** Ties and old events *)

(** X16.  Equal timestamps are settled by arrival.  The attribute check is
    [>=]: of two attribute records for the same customer with the same
    timestamp, not older than the customer's watermark, that set the same
    key, the one ingested later wins, in either order. *)
Theorem attribute_ties_go_to_the_later_arrival
    (s : Datastore) (a1 a2 : stream.Record_) (id pos : Z) (c : serve.Customer)
    (k v1 v2 : string) :
  stream.Type_ a1 = "attributes" ->
  stream.Type_ a2 = "attributes" ->
  Atoi (stream.UserID a1) = ok id ->
  Atoi (stream.UserID a2) = ok id ->
  customerLinks s !! id = Some pos ->
  index (customers s) pos = Done c ->
  serve.LastUpdated c <= stream.Timestamp a1 ->
  stream.Timestamp a2 = stream.Timestamp a1 ->
  stream.Data a1 !! k = Some v1 ->
  stream.Data a2 !! k = Some v2 ->
  (exists s12 c12,
      New_loop [a1; a2] s = Done (ok s12)
      /\ Get id s12 = Done (ok c12, s12)
      /\ serve.Attributes c12 !! k = Some v2)
  /\ (exists s21 c21,
      New_loop [a2; a1] s = Done (ok s21)
      /\ Get id s21 = Done (ok c21, s21)
      /\ serve.Attributes c21 !! k = Some v1).
Proof.
  intros Ht1 Ht2 Hid1 Hid2 Hl Hc Hlu Hts Hk1 Hk2.
  assert (forall (a b : stream.Record_) (va vb : string),
            stream.Type_ a = "attributes" -> stream.Type_ b = "attributes" ->
            Atoi (stream.UserID a) = ok id -> Atoi (stream.UserID b) = ok id ->
            serve.LastUpdated c <= stream.Timestamp a ->
            stream.Timestamp b = stream.Timestamp a ->
            stream.Data b !! k = Some vb ->
            exists sab cab,
              New_loop [a; b] s = Done (ok sab)
              /\ Get id sab = Done (ok cab, sab)
              /\ serve.Attributes cab !! k = Some vb) as Hgen.
  { intros a b va vb Hta Htb Hida Hidb Hlua Htsb Hkb.
    set (ca := raise_LastUpdated (stream.Timestamp a)
                 (set_attributes (stream.Data a) c)).
    set (sa := store_customer pos ca s).
    assert (New_body a s = Done (Next sa)) as Ea.
    { rewrite (New_body_attributes a s id pos c) by done.
      by rewrite decide_True by lia. }
    assert (index (customers sa) pos = Done ca) as Hca
      by (by eapply store_customer_index).
    assert (serve.LastUpdated ca <= stream.Timestamp b) as Hlub.
    { unfold ca. rewrite raise_LastUpdated_max. simpl. lia. }
    set (cb := raise_LastUpdated (stream.Timestamp b)
                 (set_attributes (stream.Data b) ca)).
    exists (store_customer pos cb sa), cb. split; [|split].
    - simpl. rewrite Ea. simpl.
      rewrite (New_body_attributes b sa id pos ca) by done.
      by rewrite decide_True by lia.
    - apply (Get_resolved _ id pos); [done|]. by eapply store_customer_index.
    - unfold cb. rewrite raise_LastUpdated_Attributes. simpl.
      by apply range_assign_lookup_src. }
  split.
  - by apply (Hgen a1 a2 v1 v2).
  - apply (Hgen a2 a1 v2 v1); try done; lia.
Qed.

Lemma attribute_ties_go_to_the_later_arrival_witness :
  (exists s12 c12,
      New_loop [at1; at1_green] s_one = Done (ok s12)
      /\ Get 1 s12 = Done (ok c12, s12)
      /\ serve.Attributes c12 !! "color" = Some "green")
  /\ (exists s21 c21,
      New_loop [at1_green; at1] s_one = Done (ok s21)
      /\ Get 1 s21 = Done (ok c21, s21)
      /\ serve.Attributes c21 !! "color" = Some "red").
Proof.
  apply (attribute_ties_go_to_the_later_arrival s_one at1 at1_green 1 0
           (serve.mkCustomer 1 ∅ ∅ 0) "color" "red" "green");
    first [reflexivity | simpl; lia].
Defined.

(** X17.  Events are counted whatever their timestamp.  For a customer
    that the index entry of [id] resolves to, an event record for [id] with
    a record id not applied before is counted, also when its timestamp is
    older than the customer's watermark: the count of its name becomes 1 if
    the name was absent and the 64-bit successor of the old count
    otherwise; the other counts and the attributes are unchanged; the
    watermark becomes the larger of the old one and the record's timestamp,
    so an old event does not lower it; and the record id is applied. *)
Theorem event_counted_whatever_its_timestamp
    (s : Datastore) (e : stream.Record_) (id pos : Z) (c : serve.Customer) :
  stream.Type_ e = "event" ->
  Atoi (stream.UserID e) = ok id ->
  customerLinks s !! id = Some pos ->
  index (customers s) pos = Done c ->
  processedEventsMap s !! stream.ID e = None ->
  exists s1 c1,
    New_loop [e] s = Done (ok s1)
    /\ Get id s1 = Done (ok c1, s1)
    /\ serve.Events c1 !! stream.Name e
       = Some (match serve.Events c !! stream.Name e with
               | None => 1
               | Some n => wrap_int (n + 1)
               end)
    /\ (forall name, name <> stream.Name e ->
                     serve.Events c1 !! name = serve.Events c !! name)
    /\ serve.Attributes c1 = serve.Attributes c
    /\ serve.ID c1 = serve.ID c
    /\ serve.LastUpdated c1 = Z.max (serve.LastUpdated c) (stream.Timestamp e)
    /\ processedEventsMap s1 !! stream.ID e = Some true.
Proof.
  intros Ht Hid Hl Hc Hp.
  set (c1 := raise_LastUpdated (stream.Timestamp e) (count_event (stream.Name e) c)).
  set (s1 := store_customer pos c1
               (set_processedEventsMap
                  (<[stream.ID e := true]> (processedEventsMap s)) s)).
  exists s1, c1. split; [|split; [|split; [|split; [|split; [|split; [|split]]]]]].
  - simpl. rewrite (New_body_registered e s id pos Hid Hl).
    by rewrite (processRecord_event_fresh e s id pos c).
  - apply (Get_resolved _ id pos); [done|].
    eapply (store_customer_index (set_processedEventsMap _ s)). exact Hc.
  - unfold c1. rewrite raise_LastUpdated_Events. simpl.
    destruct (serve.Events c !! stream.Name e); by rewrite lookup_insert_eq.
  - intros name Hne. unfold c1. rewrite raise_LastUpdated_Events. simpl.
    destruct (serve.Events c !! stream.Name e); by rewrite lookup_insert_ne.
  - unfold c1. by rewrite raise_LastUpdated_Attributes.
  - unfold c1. by rewrite raise_LastUpdated_ID.
  - unfold c1. by rewrite raise_LastUpdated_max.
  - simpl. by rewrite lookup_insert_eq.
Qed.

(** X17 at customer 1 with watermark 1: the event "e0" dated 0. *)
Lemma event_counted_whatever_its_timestamp_witness :
  exists s1 c1,
    New_loop [ev_old] s_dup = Done (ok s1)
    /\ Get 1 s1 = Done (ok c1, s1)
    /\ serve.Events c1 !! stream.Name ev_old
       = Some (match serve.Events (serve.mkCustomer 1 ∅ {["open" := 1]} 1)
                       !! stream.Name ev_old with
               | None => 1
               | Some n => wrap_int (n + 1)
               end)
    /\ (forall name, name <> stream.Name ev_old ->
          serve.Events c1 !! name
          = serve.Events (serve.mkCustomer 1 ∅ {["open" := 1]} 1) !! name)
    /\ serve.Attributes c1 = serve.Attributes (serve.mkCustomer 1 ∅ {["open" := 1]} 1)
    /\ serve.ID c1 = serve.ID (serve.mkCustomer 1 ∅ {["open" := 1]} 1)
    /\ serve.LastUpdated c1
       = Z.max (serve.LastUpdated (serve.mkCustomer 1 ∅ {["open" := 1]} 1))
               (stream.Timestamp ev_old)
    /\ processedEventsMap s1 !! stream.ID ev_old = Some true.
Proof.
  apply (event_counted_whatever_its_timestamp s_dup ev_old 1 0
           (serve.mkCustomer 1 ∅ {["open" := 1]} 1)); reflexivity.
Defined.

(** ** Event counts after ingestion *)

Lemma occurrences_nil x : occurrences x [] = 0.
Proof. reflexivity. Qed.

Lemma occurrences_cons x y l :
  occurrences x (y :: l) = (if decide (y = x) then 1 else 0) + occurrences x l.
Proof.
  unfold occurrences. rewrite filter_cons. case_decide; simpl; lia.
Qed.

Lemma occurrences_nonneg x l : 0 <= occurrences x l.
Proof. unfold occurrences. lia. Qed.

Lemma New_body_registers r s s1 id :
  Atoi (stream.UserID r) = ok id ->
  New_body r s = Done (Next s1) ->
  is_Some (customerLinks s1 !! id).
Proof.
  intros Hid H. unfold New_body, isUserRegistered in H. rewrite Hid in H.
  destruct (customerLinks s !! id) as [pos|] eqn:Hl.
  - destruct (processRecord r s) as [[[e|] s2]|] eqn:E; simpl in H; try discriminate.
    injection H as <-. destruct (processRecord_frame _ _ _ _ E) as [-> _]. eauto.
  - destruct (processRecord r _) as [[[e|] s2]|] eqn:E; simpl in H; try discriminate.
    injection H as <-. destruct (processRecord_frame _ _ _ _ E) as [-> _].
    destruct (registered_resolves r s id Hid) as (-> & _). eauto.
Qed.

Lemma New_loop_slot_ID rs s1 s (i : nat) c1 :
  New_loop rs s1 = Done (ok s) ->
  customers s1 !! i = Some c1 ->
  exists c, customers s !! i = Some c /\ serve.ID c = serve.ID c1.
Proof.
  revert s1 c1. induction rs as [|r rs IH]; intros s1 c1 H Hi; simpl in H.
  - injection H as <-. eauto.
  - destruct (New_body r s1) as [[s2|e]|] eqn:E; simpl in H; try discriminate.
    destruct (New_body_monotone r s1 s2 i c1 E Hi) as (c2 & Hc2 & Hid2 & _).
    destruct (IH s2 c2 H Hc2) as (c & Hc & Hid). exists c. split; [done|]. congruence.
Qed.

(** One record, slot by slot: the count of [name] in slot [i] afterwards. *)
Lemma New_body_slot_events r s0 s1 (i : nat) c1 name :
  I1 s0 ->
  New_body r s0 = Done (Next s1) ->
  customers s1 !! i = Some c1 ->
  serve.Events c1 !! name =
    if decide (user_of r = Some (serve.ID c1)
               /\ (stream.Type_ r = "event"
                   /\ processedEventsMap s0 !! stream.ID r = None)
               /\ stream.Name r = name)
    then Some (match slot_events s0 i name with
               | None => 1
               | Some n => wrap_int (n + 1)
               end)
    else slot_events s0 i name.
Proof.
  intros HI H Hi. pose proof HI as [Hex Hso].
  destruct (Atoi (stream.UserID r)) as [id|e0] eqn:Hid.
  2:{ rewrite (New_body_invalid r s0 e0 Hid) in H. injection H as <-.
      rewrite decide_False.
      - unfold slot_events. by rewrite Hi.
      - intros (Hu & _). apply user_of_Some in Hu. congruence. }
  assert (user_of r = Some id) as Hu by (by apply user_of_Some).
  rewrite Hu.
  destruct (customerLinks s0 !! id) as [pos|] eqn:Hl.
  - destruct (Hso id pos Hl) as (c0 & Hc0 & Hid0).
    pose proof Hc0 as [Hpos Hc0']%index_Done.
    pose proof (Hex _ _ Hc0') as Hex0. rewrite Hid0, Hl in Hex0.
    assert (forall cnew s',
              customers s' = customers s0 ->
              customers (store_customer pos cnew s') !! i = Some c1 ->
              (i = Z.to_nat pos /\ c1 = cnew
               /\ slot_events s0 i name = serve.Events c0 !! name)
              \/ (serve.ID c1 <> id /\ slot_events s0 i name = serve.Events c1 !! name))
      as Hslot.
    { intros cnew s' Es' Hlk. simpl in Hlk. rewrite Es' in Hlk.
      apply list_lookup_insert_Some in Hlk as [(<- & <- & _)|[Hne Hlk]].
      - left. split; [done|]. split; [done|]. unfold slot_events. by rewrite Hc0'.
      - right. split.
        + intros E. pose proof (Hex _ _ Hlk) as Hex1. rewrite E, Hl in Hex1.
          injection Hex1 as ->. rewrite Nat2Z.id in Hne. done.
        + unfold slot_events. by rewrite Hlk. }
    rewrite (New_body_registered r s0 id pos Hid Hl) in H.
    destruct (decide (stream.Type_ r = "event")) as [Ht|Ht].
    + destruct (processedEventsMap s0 !! stream.ID r) as [b|] eqn:Hp.
      * rewrite (processRecord_event_duplicate r s0 id pos c0) in H by eauto.
        simpl in H. injection H as <-. rewrite decide_False by (intros (_ & [_ ?] & _); done).
        unfold slot_events. by rewrite Hi.
      * rewrite (processRecord_event_fresh r s0 id pos c0) in H by done.
        simpl in H. injection H as <-.
        destruct (Hslot _ (set_processedEventsMap
                             (<[stream.ID r := true]> (processedEventsMap s0)) s0)
                    eq_refl Hi) as [(-> & -> & ->)|[Hne ->]].
        -- rewrite raise_LastUpdated_ID, raise_LastUpdated_Events. simpl.
           rewrite Hid0. destruct (decide (stream.Name r = name)) as [<-|Hn].
           ++ rewrite decide_True by done.
              destruct (serve.Events c0 !! stream.Name r); by rewrite lookup_insert_eq.
           ++ rewrite decide_False by (intros (_ & _ & ?); done).
              destruct (serve.Events c0 !! stream.Name r); by rewrite lookup_insert_ne.
        -- rewrite decide_False; [done|]. intros ([= ?] & _). done.
    + assert (exists cnew,
                serve.Events cnew = serve.Events c0 /\ serve.ID cnew = serve.ID c0
                /\ s1 = store_customer pos cnew s0) as (cnew & Hev & Hidn & ->).
      { destruct (decide (stream.Type_ r = "attributes")) as [Ha|Ha].
        - rewrite (processRecord_attributes r s0 id pos c0) in H by done.
          simpl in H. injection H as <-. eexists. split; [|split; [|reflexivity]].
          + rewrite raise_LastUpdated_Events. by case_decide.
          + rewrite raise_LastUpdated_ID. by case_decide.
        - rewrite (processRecord_other r s0 id pos c0) in H by done.
          simpl in H. injection H as <-. eexists. split; [|split; [|reflexivity]].
          + by rewrite raise_LastUpdated_Events.
          + by rewrite raise_LastUpdated_ID. }
      rewrite decide_False by (intros (_ & [? _] & _); done).
      destruct (Hslot cnew s0 eq_refl Hi) as [(-> & -> & ->)|[Hne ->]]; by rewrite ?Hev.
  - destruct (New_body_first_sighting r s0 id Hid Hl)
      as (c & s' & HN & Hcs & _ & Hidc & _ & _ & Hev).
    rewrite HN in H. injection H as <-. rewrite Hcs in Hi.
    apply lookup_app_Some in Hi as [Hi|[Hge Hi]].
    + rewrite decide_False.
      * unfold slot_events. by rewrite Hi.
      * intros ([= E] & _). pose proof (Hex _ _ Hi) as Hex1. rewrite <- E in Hex1.
        congruence.
    + apply list_lookup_singleton_Some in Hi as [Hi0 <-].
      assert (slot_events s0 i name = None) as ->.
      { unfold slot_events. rewrite lookup_ge_None_2; [done|lia]. }
      rewrite Hev, Hidc.
      destruct (decide (stream.Type_ r = "event"
                        /\ processedEventsMap s0 !! stream.ID r = None)) as [D|D].
      * destruct (decide (stream.Name r = name)) as [<-|Hn].
        -- rewrite decide_True by done. by rewrite lookup_singleton_eq.
        -- rewrite decide_False by (intros (_ & _ & ?); done).
           by rewrite lookup_singleton_ne.
      * rewrite decide_False by (intros (_ & ? & _); done). by rewrite lookup_empty.
Qed.

Lemma wrap_int_id z : - 2 ^ 63 <= z < 2 ^ 63 -> wrap_int z = z.
Proof. intros H. unfold wrap_int. rewrite Z.mod_small; lia. Qed.

Lemma New_loop_event_counts rs :
  forall s0 s,
    I1 s0 ->
    New_loop rs s0 = Done (ok s) ->
    Z.of_nat (List.length rs) < 2 ^ 63 ->
    (forall i name n, slot_events s0 i name = Some n ->
                      0 <= n /\ n + Z.of_nat (List.length rs) < 2 ^ 63) ->
    forall (i : nat) c name,
      customers s !! i = Some c ->
      serve.Events c !! name
      = add_count (slot_events s0 i name)
          (occurrences (serve.ID c, name) (counted (processedEventsMap s0) rs)).
Proof.
  induction rs as [|r rs IH]; intros s0 s HI H Hlen Hb i c name Hi; simpl in H.
  - injection H as <-. simpl. rewrite occurrences_nil. unfold add_count.
    rewrite decide_True by done. unfold slot_events. by rewrite Hi.
  - destruct (New_body r s0) as [[s1|e]|] eqn:E; simpl in H; try discriminate.
    pose proof (New_body_preserves_I1 r s0 s1 HI E) as HI1.
    simpl List.length in *.
    assert (forall i' name' n, slot_events s1 i' name' = Some n ->
              0 <= n /\ n + Z.of_nat (List.length rs) < 2 ^ 63) as Hb1.
    { intros i' name' n Hs. unfold slot_events in Hs.
      destruct (customers s1 !! i') as [c1|] eqn:Hc1; [|done].
      rewrite (New_body_slot_events r s0 s1 i' c1 name' HI E Hc1) in Hs.
      case_decide.
      - injection Hs as <-. destruct (slot_events s0 i' name') as [n0|] eqn:Hs0.
        + destruct (Hb _ _ _ Hs0). rewrite wrap_int_id by lia. lia.
        + lia.
      - destruct (Hb _ _ _ Hs). lia. }
    rewrite (IH s1 s HI1 H ltac:(lia) Hb1 i c name Hi).
    assert (slot_events s1 i name =
            if decide (user_of r = Some (serve.ID c)
                       /\ (stream.Type_ r = "event"
                           /\ processedEventsMap s0 !! stream.ID r = None)
                       /\ stream.Name r = name)
            then Some (match slot_events s0 i name with
                       | None => 1
                       | Some n => wrap_int (n + 1)
                       end)
            else slot_events s0 i name) as Hse.
    { destruct (customers s1 !! i) as [c1|] eqn:Hc1.
      - destruct (New_loop_slot_ID rs s1 s i c1 H Hc1) as (c' & Hc' & Hid').
        rewrite Hi in Hc'. injection Hc' as <-.
        unfold slot_events at 1. rewrite Hc1.
        rewrite (New_body_slot_events r s0 s1 i c1 name HI E Hc1). by rewrite Hid'.
      - unfold slot_events at 1. rewrite Hc1.
        assert (slot_events s0 i name = None) as Hs0.
        { unfold slot_events. destruct (customers s0 !! i) as [c0|] eqn:Hc0; [|done].
          destruct (New_body_monotone r s0 s1 i c0 E Hc0) as (c1 & ? & _). congruence. }
        rewrite Hs0. rewrite decide_False; [done|].
        intros (Hu & _). apply user_of_Some in Hu.
        pose proof (New_body_registers r s0 s1 _ Hu E) as Hreg.
        apply (I1_stored_ids s1 _ HI1) in Hreg.
        pose proof (New_loop_ids rs s1 s HI1 H) as Hids.
        assert ((serve.ID <$> customers s) !! i = Some (serve.ID c)) as Hlk
          by (by rewrite list_lookup_fmap, Hi).
        rewrite Hids in Hlk. apply lookup_app_Some in Hlk as [Hlk|[_ Hlk]].
        + rewrite list_lookup_fmap, Hc1 in Hlk. done.
        + apply list_elem_of_lookup_2 in Hlk. apply first_seen_elem in Hlk as [_ ?]. done. }
    rewrite Hse. rewrite (New_body_processed r s0 s1 E). simpl counted.
    destruct (user_of r) as [id|] eqn:Hu.
    2:{ rewrite decide_False by (by intros (? & _)).
        rewrite decide_False by (by intros (_ & [? ?] & _)). done. }
    destruct (decide (stream.Type_ r = "event"
                      /\ processedEventsMap s0 !! stream.ID r = None)) as [D|D].
    2:{ rewrite decide_False by (intros (_ & ? & _); done).
        rewrite decide_False by (intros (? & _ & ?); tauto). done. }
    rewrite (decide_True (P := _ /\ is_Some _ /\ _)) by (destruct D; eauto).
    rewrite occurrences_cons.
    pose proof (occurrences_nonneg (serve.ID c, name)
                  (counted (<[stream.ID r := true]> (processedEventsMap s0)) rs)) as Hk.
    destruct (decide ((id, stream.Name r) = (serve.ID c, name))) as [Exy|Nxy].
    + injection Exy as -> <-. rewrite decide_True by done.
      set (k := occurrences _ _) in *.
      unfold add_count. rewrite (decide_False (P := 1 + k = 0)) by lia.
      destruct (slot_events s0 i (stream.Name r)) as [n0|] eqn:Hs0; simpl.
      * destruct (Hb _ _ _ Hs0) as [Hn0 Hn1]. rewrite wrap_int_id by lia.
        destruct (decide (k = 0)) as [Ek|Ek]; simpl; apply (f_equal Some); lia.
      * destruct (decide (k = 0)) as [Ek|Ek]; simpl; apply (f_equal Some); lia.
    + rewrite decide_False; [by rewrite Z.add_0_l|].
      intros ([= E1] & _ & E2). apply Nxy. by rewrite E1, E2.
Qed.

(** X18.  Every record id is counted once.  For an input of fewer than
    2^63 records, the event counts of the registry that [New] returns are
    exactly these: the count of [name] for a customer is the number of
    counted records that carry the customer's id and [name], where the
    counted records are the records of kind "event" with a user id that
    parses and a record id that no earlier such record carried; and a name
    with no counted record has no entry. *)
Theorem New_counts_each_record_id_once (rs : list stream.Record_) :
  Z.of_nat (List.length rs) < 2 ^ 63 ->
  exists s,
    New rs = Done (ok s)
    /\ forall (i : nat) c name,
         customers s !! i = Some c ->
         serve.Events c !! name
         = (let n := occurrences (serve.ID c, name) (counted ∅ rs) in
            if decide (n = 0) then None else Some n).
Proof.
  intros Hlen. destruct (New_total rs) as (s & HN & _). exists s. split; [done|].
  intros i c name Hi. unfold New in HN.
  assert (forall i' name', slot_events empty_store i' name' = None) as Hnone.
  { intros i' name'. unfold slot_events. simpl. by destruct i'. }
  rewrite (New_loop_event_counts rs empty_store s I1_empty_store HN Hlen
             ltac:(intros i' name' n; rewrite Hnone; discriminate) i c name Hi).
  rewrite Hnone. unfold add_count. simpl.
  destruct (decide (occurrences (serve.ID c, name) (counted ∅ rs) = 0)); [done|].
  apply (f_equal Some). lia.
Qed.

(** X18 on three deliveries: "e1" for user 1, "e1" again for user 2, and
    "e2" for user 1. *)
Lemma New_counts_each_record_id_once_witness :
  exists s,
    New [ev1; ev1_user2; ev2] = Done (ok s)
    /\ forall (i : nat) c name,
         customers s !! i = Some c ->
         serve.Events c !! name
         = (let n := occurrences (serve.ID c, name)
                       (counted ∅ [ev1; ev1_user2; ev2]) in
            if decide (n = 0) then None else Some n).
Proof.
  apply (New_counts_each_record_id_once [ev1; ev1_user2; ev2]).
  vm_compute. reflexivity.
Defined.

(** ** Attributes and watermarks after ingestion *)

Lemma processRecord_applied r s id pos c :
  Atoi (stream.UserID r) = ok id ->
  customerLinks s !! id = Some pos ->
  index (customers s) pos = Done c ->
  exists s1,
    processRecord r s = Done (None, s1)
    /\ customers s1 = <[Z.to_nat pos := applied r (processedEventsMap s) c]> (customers s).
Proof.
  intros Hid Hl Hc. unfold applied.
  destruct (decide (stream.Type_ r = "event")) as [Ht|Ht].
  - destruct (processedEventsMap s !! stream.ID r) as [b|] eqn:Hp.
    + rewrite (processRecord_event_duplicate r s id pos c) by eauto.
      eexists. split; [done|]. apply index_Done in Hc as [_ Hc].
      by rewrite list_insert_id.
    + rewrite (processRecord_event_fresh r s id pos c) by done. eauto.
  - destruct (decide (stream.Type_ r = "attributes")) as [Ha|Ha].
    + rewrite (processRecord_attributes r s id pos c) by done. eauto.
    + rewrite (processRecord_other r s id pos c) by done. eauto.
Qed.

Lemma applied_ID r seen c : serve.ID (applied r seen c) = serve.ID c.
Proof.
  unfold applied. repeat (case_decide || case_match);
    rewrite ?raise_LastUpdated_ID; done.
Qed.

(** One record, slot by slot: a slot is untouched, or it holds what
    [processRecord] made of the customer of the record's user, who was
    stored there or has just been registered there. *)
Lemma New_body_slot_cases r s0 s1 (i : nat) c1 :
  I1 s0 ->
  New_body r s0 = Done (Next s1) ->
  customers s1 !! i = Some c1 ->
  (customers s0 !! i = Some c1 /\ user_of r <> Some (serve.ID c1))
  \/ (exists c0,
        user_of r = Some (serve.ID c1)
        /\ serve.ID c0 = serve.ID c1
        /\ c1 = applied r (processedEventsMap s0) c0
        /\ (customers s0 !! i = Some c0
            \/ (customers s0 !! i = None
                /\ c0 = serve.mkCustomer (serve.ID c1) ∅ ∅ (stream.Timestamp r)))).
Proof.
  intros HI H Hi. pose proof HI as [Hex Hso].
  destruct (Atoi (stream.UserID r)) as [id|e0] eqn:Hid.
  2:{ rewrite (New_body_invalid r s0 e0 Hid) in H. injection H as <-.
      left. split; [done|]. intros Hu%user_of_Some. congruence. }
  assert (user_of r = Some id) as Hu by (by apply user_of_Some).
  destruct (customerLinks s0 !! id) as [pos|] eqn:Hl.
  - destruct (Hso id pos Hl) as (c0 & Hc0 & Hid0).
    pose proof Hc0 as [Hpos Hc0']%index_Done.
    rewrite (New_body_registered r s0 id pos Hid Hl) in H.
    destruct (processRecord_applied r s0 id pos c0 Hid Hl Hc0) as (s2 & HP & Hcs).
    rewrite HP in H. simpl in H. injection H as <-. rewrite Hcs in Hi.
    apply list_lookup_insert_Some in Hi as [(<- & <- & _)|[Hne Hlk]].
    + right. exists c0. rewrite applied_ID, Hid0. eauto.
    + left. split; [done|]. rewrite Hu. intros [= E].
      pose proof (Hex _ _ Hlk) as Hex1. rewrite <- E, Hl in Hex1.
      injection Hex1 as ->. rewrite Nat2Z.id in Hne. done.
  - rewrite (New_body_unregistered r s0 id Hid Hl) in H.
    destruct (registered_resolves r s0 id Hid) as (Hl0 & Hc0 & Hcs0 & Hp0).
    set (sr := snd (registerCustomerFromRecord r s0)) in *.
    destruct (processRecord_applied r sr id _ _ Hid Hl0 Hc0) as (s2 & HP & Hcs).
    rewrite HP in H. simpl in H. injection H as <-. rewrite Hcs, Hcs0, Hp0 in Hi.
    unfold len in Hi. rewrite Nat2Z.id in Hi.
    apply list_lookup_insert_Some in Hi as [(<- & <- & _)|[Hne Hlk]].
    + right. exists (serve.mkCustomer id ∅ ∅ (stream.Timestamp r)).
      rewrite applied_ID. simpl.
      split; [done|]. split; [reflexivity|]. split; [reflexivity|].
      right. split; [|done]. by apply lookup_ge_None_2.
    + apply lookup_app_Some in Hlk as [Hlk|[Hge Hlk]].
      * left. split; [done|]. rewrite Hu. intros [= E].
        pose proof (Hex _ _ Hlk) as Hex1. rewrite <- E in Hex1. congruence.
      * apply list_lookup_singleton_Some in Hlk as [Hi0 _]. lia.
Qed.

Lemma New_loop_slot_monotone rs s1 s (i : nat) c1 :
  New_loop rs s1 = Done (ok s) ->
  customers s1 !! i = Some c1 ->
  exists c, customers s !! i = Some c /\ serve.ID c = serve.ID c1
            /\ serve.LastUpdated c1 <= serve.LastUpdated c.
Proof.
  revert s1 c1. induction rs as [|r rs IH]; intros s1 c1 H Hi; simpl in H.
  - injection H as <-. exists c1. split; [done|]. split; [done|lia].
  - destruct (New_body r s1) as [[s2|e]|] eqn:E; simpl in H; try discriminate.
    destruct (New_body_monotone r s1 s2 i c1 E Hi) as (c2 & Hc2 & Hid2 & Hlu2).
    destruct (IH s2 c2 H Hc2) as (c & Hc & Hid & Hlu).
    exists c. split; [done|]. split; [congruence|lia].
Qed.

Lemma New_loop_attribute_sources rs :
  forall s0 s (i : nat) c k v,
    I1 s0 ->
    New_loop rs s0 = Done (ok s) ->
    customers s !! i = Some c ->
    serve.Attributes c !! k = Some v ->
    (exists c0, customers s0 !! i = Some c0 /\ serve.Attributes c0 !! k = Some v)
    \/ (exists r, r ∈ rs /\ user_of r = Some (serve.ID c)
                  /\ stream.Type_ r = "attributes" /\ stream.Data r !! k = Some v).
Proof.
  induction rs as [|r rs IH]; intros s0 s i c k v HI H Hi Hk; simpl in H.
  - injection H as <-. eauto.
  - destruct (New_body r s0) as [[s1|e]|] eqn:E; simpl in H; try discriminate.
    pose proof (New_body_preserves_I1 r s0 s1 HI E) as HI1.
    destruct (IH s1 s i c k v HI1 H Hi Hk)
      as [(c1 & Hc1 & Hk1)|(r' & Hr' & ?)].
    2:{ right. exists r'. rewrite elem_of_cons. eauto. }
    destruct (New_loop_slot_ID rs s1 s i c1 H Hc1) as (c' & Hc' & Hidc).
    rewrite Hi in Hc'. injection Hc' as <-.
    destruct (New_body_slot_cases r s0 s1 i c1 HI E Hc1)
      as [[Hc0 _]|(c0 & Hu & Hid0 & Happ & Hfrom)]; [eauto|].
    assert (serve.Attributes c0 !! k = Some v ->
            (exists c0', customers s0 !! i = Some c0'
                         /\ serve.Attributes c0' !! k = Some v)) as Hold.
    { intros Hk0. destruct Hfrom as [?|[_ Hfresh]]; [eauto|].
      rewrite Hfresh in Hk0. simpl in Hk0. by rewrite lookup_empty in Hk0. }
    rewrite Happ in Hk1. unfold applied in Hk1.
    destruct (decide (stream.Type_ r = "event")) as [Ht|Ht].
    { left. apply Hold. destruct (processedEventsMap s0 !! stream.ID r); [done|].
      by rewrite raise_LastUpdated_Attributes in Hk1. }
    destruct (decide (stream.Type_ r = "attributes")) as [Ha|Ha].
    2:{ left. apply Hold. by rewrite raise_LastUpdated_Attributes in Hk1. }
    rewrite raise_LastUpdated_Attributes in Hk1.
    destruct (decide (stream.Timestamp r >= serve.LastUpdated c0)); [|by left; apply Hold].
    simpl in Hk1. rewrite range_assign_union in Hk1.
    apply lookup_union_Some_raw in Hk1 as [Hd|[_ Hk0]]; [|by left; apply Hold].
    right. exists r. rewrite elem_of_cons. rewrite Hidc. eauto 10.
Qed.

(** X19.  No attribute is invented and none crosses over.  In the registry
    that [New] returns, every attribute value that a customer holds was
    supplied, under that key, by a record of kind "attributes" of the input
    whose user id is the customer's id. *)
Theorem New_attributes_come_from_the_users_records (rs : list stream.Record_) :
  exists s,
    New rs = Done (ok s)
    /\ forall (i : nat) c k v,
         customers s !! i = Some c ->
         serve.Attributes c !! k = Some v ->
         exists r, r ∈ rs
                   /\ Atoi (stream.UserID r) = ok (serve.ID c)
                   /\ stream.Type_ r = "attributes"
                   /\ stream.Data r !! k = Some v.
Proof.
  destruct (New_total rs) as (s & HN & _). exists s. split; [done|].
  intros i c k v Hi Hk. unfold New in HN.
  destruct (New_loop_attribute_sources rs empty_store s i c k v I1_empty_store HN Hi Hk)
    as [(c0 & Hc0 & _)|(r & Hr & Hu & Ht & Hd)].
  - simpl in Hc0. by rewrite lookup_nil in Hc0.
  - exists r. split; [done|]. split; [by apply user_of_Some|done].
Qed.

Lemma New_loop_watermark_source rs :
  forall s0 s (i : nat) c,
    I1 s0 ->
    New_loop rs s0 = Done (ok s) ->
    customers s !! i = Some c ->
    (exists c0, customers s0 !! i = Some c0
                /\ serve.LastUpdated c = serve.LastUpdated c0)
    \/ (exists r, r ∈ rs /\ user_of r = Some (serve.ID c)
                  /\ serve.LastUpdated c = stream.Timestamp r).
Proof.
  induction rs as [|r rs IH]; intros s0 s i c HI H Hi; simpl in H.
  - injection H as <-. eauto.
  - destruct (New_body r s0) as [[s1|e]|] eqn:E; simpl in H; try discriminate.
    pose proof (New_body_preserves_I1 r s0 s1 HI E) as HI1.
    destruct (IH s1 s i c HI1 H Hi) as [(c1 & Hc1 & Hlu1)|(r' & Hr' & ?)].
    2:{ right. exists r'. rewrite elem_of_cons. eauto. }
    destruct (New_loop_slot_ID rs s1 s i c1 H Hc1) as (c' & Hc' & Hidc).
    rewrite Hi in Hc'. injection Hc' as <-.
    destruct (New_body_slot_cases r s0 s1 i c1 HI E Hc1)
      as [[Hc0 _]|(c0 & Hu & Hid0 & Happ & Hfrom)]; [eauto|].
    assert (serve.LastUpdated (applied r (processedEventsMap s0) c0)
            = serve.LastUpdated c0
            \/ serve.LastUpdated (applied r (processedEventsMap s0) c0)
               = stream.Timestamp r) as [Hl|Hl].
    { unfold applied. repeat (case_decide || case_match);
        rewrite ?raise_LastUpdated_max; simpl; lia. }
    + destruct Hfrom as [Hc0|[_ Hfresh]].
      * left. exists c0. split; [done|]. congruence.
      * right. exists r. rewrite elem_of_cons. rewrite Hidc.
        split; [by left|]. split; [done|]. rewrite Hlu1, Happ, Hl, Hfresh. done.
    + right. exists r. rewrite elem_of_cons. rewrite Hidc.
      split; [by left|]. split; [done|]. congruence.
Qed.

Lemma New_loop_watermark_bound rs :
  forall s0 s (i : nat) c r,
    I1 s0 ->
    New_loop rs s0 = Done (ok s) ->
    customers s !! i = Some c ->
    r ∈ rs ->
    user_of r = Some (serve.ID c) ->
    stream.Type_ r <> "event" ->
    stream.Timestamp r <= serve.LastUpdated c.
Proof.
  induction rs as [|r0 rs IH]; intros s0 s i c r HI H Hi Hr Hu Ht; simpl in H.
  - by apply elem_of_nil in Hr.
  - destruct (New_body r0 s0) as [[s1|e]|] eqn:E; simpl in H; try discriminate.
    pose proof (New_body_preserves_I1 r0 s0 s1 HI E) as HI1.
    apply elem_of_cons in Hr as [->|Hr]; [|by eapply (IH s1 s i c r)].
    assert (I1 s) as HIs.
    { clear -HI1 H. revert s1 HI1 H. induction rs as [|r rs IH']; intros s1 HI1 H; simpl in H.
      - by injection H as <-.
      - destruct (New_body r s1) as [[s2|e]|] eqn:E; simpl in H; try discriminate.
        eapply IH'; [|exact H]. by eapply New_body_preserves_I1. }
    pose proof Hu as Hu'. apply user_of_Some in Hu'.
    destruct (New_body_registers r0 s0 s1 _ Hu' E) as [p Hp].
    destruct (proj2 HI1 _ _ Hp) as (c1 & [Hp0 Hc1]%index_Done & Hid1).
    destruct (New_loop_slot_monotone rs s1 s _ c1 H Hc1) as (c' & Hc' & Hid' & Hlu').
    assert (Z.to_nat p = i) as Hpi.
    { apply (index_exact_unique s (proj1 HIs) _ _ c' c); [done..|]. congruence. }
    subst i. rewrite Hi in Hc'. injection Hc' as <-.
    destruct (New_body_slot_cases r0 s0 s1 _ c1 HI E Hc1)
      as [[_ Hn]|(c0 & _ & _ & Happ & _)].
    { exfalso. apply Hn. by rewrite Hid1. }
    assert (stream.Timestamp r0 <= serve.LastUpdated c1); [|lia].
    rewrite Happ. unfold applied. rewrite decide_False by done.
    case_decide; rewrite raise_LastUpdated_max; lia.
Qed.

(** X20.  The watermark after ingestion.  In the registry that [New]
    returns, the [LastUpdated] of every customer is the timestamp of one of
    the records of the input that carry the customer's id, and it is not
    below the timestamp of any such record that is not of kind "event". *)
Theorem New_watermark_is_a_record_timestamp (rs : list stream.Record_) :
  exists s,
    New rs = Done (ok s)
    /\ forall (i : nat) c,
         customers s !! i = Some c ->
         (exists r, r ∈ rs
                    /\ Atoi (stream.UserID r) = ok (serve.ID c)
                    /\ serve.LastUpdated c = stream.Timestamp r)
         /\ (forall r, r ∈ rs ->
                       Atoi (stream.UserID r) = ok (serve.ID c) ->
                       stream.Type_ r <> "event" ->
                       stream.Timestamp r <= serve.LastUpdated c).
Proof.
  destruct (New_total rs) as (s & HN & _). exists s. split; [done|].
  intros i c Hi. unfold New in HN. split.
  - destruct (New_loop_watermark_source rs empty_store s i c I1_empty_store HN Hi)
      as [(c0 & Hc0 & _)|(r & Hr & Hu & Hlu)].
    + simpl in Hc0. by rewrite lookup_nil in Hc0.
    + exists r. split; [done|]. split; [by apply user_of_Some|done].
  - intros r Hr Hu Ht.
    apply (New_loop_watermark_bound rs empty_store s i c r I1_empty_store HN Hi Hr);
      [by apply user_of_Some|done].
Qed.
